(** * parse_logs: extraction of sample payloads from client debug logs

    A shallow embedding of [scripts/parse_logs.py] and the properties of
    its extraction loop.

    Modelling conventions.
    - A log line is a [string] of 8-bit characters, as returned by
      [f.readlines()] (the trailing newline, when present, is part of the
      line).  On 8-bit characters the class [\d] of Python's [re] is
      exactly [0-9].
    - The four compiled patterns are used through [re.match] (anchored at
      the start of the line, free at its end) and [findall].  They are
      embedded as matchers that read the line from left to right.
    - The byte accumulator ([bytearray]) is a [list Z] of values in
      [0, 255]; [base64.b64encode] works on it with shifts and masks.
    - The two [while] loops walk the list of lines with the cursor [i]
      and are defined by well-founded recursion on [len(lines) - i].
    - [glob.glob] and [open] are the environment: the globbed paths are an
      input list, the file system a partial function from paths to lines
      ([None]: the file cannot be opened, [open] raises [IOError]). *)

From Equations Require Import Equations.
From Equations.Prop Require Import Logic.
From Stdlib Require Import List Arith ZArith Lia Bool Ascii String.
From Stdlib Require Import Sorting.Sorted Sorting.Permutation.
Import ListNotations.

Local Open Scope string_scope.
Local Open Scope nat_scope.
Local Open Scope list_scope.

(** * The program *)

(** ** Option sequencing, for the matchers *)

Notation "' p <- e ;; k" :=
  (match e with
   | Some p => k
   | None => None
   end)
  (at level 61, p pattern, e at next level, right associativity).

(** ** Character classes *)

Module CharClass.

(** [\d] on 8-bit characters, and the range [0-9] of a bracket class.
    On a [str] Python's [\d] also matches the decimal digits beyond
    ASCII, which the lines of this model do not hold: the properties
    that describe what the patterns accept are stated for ASCII text
    ([is_ascii_text]), where the two agree. *)
Definition is_digit (c : ascii) : bool :=
  (48 <=? nat_of_ascii c) && (nat_of_ascii c <=? 57).

(** The range [a-f]. *)
Definition is_a_f (c : ascii) : bool :=
  (97 <=? nat_of_ascii c) && (nat_of_ascii c <=? 102).

(** The class [[0-9a-f]]: lower case only, no flag makes it
    case-insensitive. *)
Definition is_hex (c : ascii) : bool := is_digit c || is_a_f c.

End CharClass.
Import CharClass.

(** ** Pattern matchers *)

Module Re.

(** A matcher reads a prefix of its input and returns the text it
    matched with what is left of the input. *)
Definition matcher := string -> option (string * string).

(** A literal piece of a pattern. *)
Fixpoint lit (p : string) : matcher := fun s =>
  match p with
  | EmptyString => Some (EmptyString, s)
  | String a p' =>
      match s with
      | EmptyString => None
      | String b s' =>
          if Ascii.eqb a b
          then '(t, r) <- lit p' s' ;; Some (String b t, r)
          else None
      end
  end.

(** [cls{n}]: exactly [n] characters of the class. *)
Fixpoint chars (n : nat) (cls : ascii -> bool) : matcher := fun s =>
  match n with
  | O => Some (EmptyString, s)
  | S n' =>
      match s with
      | EmptyString => None
      | String b s' =>
          if cls b
          then '(t, r) <- chars n' cls s' ;; Some (String b t, r)
          else None
      end
  end.

(** [cls*], greedy: the longest run of characters of the class. *)
Fixpoint many (cls : ascii -> bool) (s : string) : string * string :=
  match s with
  | EmptyString => (EmptyString, EmptyString)
  | String b s' =>
      if cls b
      then let '(t, r) := many cls s' in (String b t, r)
      else (EmptyString, s)
  end.

(** [cls+], greedy.  In the patterns of this program a [\d+] is followed
    by a space or by the end of the pattern, so giving back digits can
    never turn a failed match into a successful one: the longest run is
    the only candidate. *)
Definition many1 (cls : ascii -> bool) : matcher := fun s =>
  match many cls s with
  | (EmptyString, _) => None
  | (t, r) => Some (t, r)
  end.

(** [(p|q)]: the first alternative that matches.  The alternatives of
    this program ([send|recv], [tcp|udp]) start with different letters,
    so at most one of them matches. *)
Definition alt (p q : matcher) : matcher := fun s =>
  match p s with
  | Some m => Some m
  | None => q s
  end.

(** Concatenation of two pieces; the matched texts are joined. *)
Definition seq (p q : matcher) : matcher := fun s =>
  '(t1, r1) <- p s ;;
  '(t2, r2) <- q r1 ;;
  Some ((t1 ++ t2)%string, r2).

End Re.
Import Re.

(** ** The four compiled patterns *)

(** [\d{4}/\d{2}/\d{2} \d{2}:\d{2}:\d{2}], the prefix shared by
    [event_re] and [size_re]. *)
Definition timestamp_pat : matcher :=
  seq (chars 4 is_digit) (seq (lit "/") (seq (chars 2 is_digit)
  (seq (lit "/") (seq (chars 2 is_digit) (seq (lit " ")
  (seq (chars 2 is_digit) (seq (lit ":") (seq (chars 2 is_digit)
  (seq (lit ":") (chars 2 is_digit)))))))))).

(** The groups of a successful [event_re] match, as [m.groups()] returns
    them. *)
Record groups := Groups {
  g_ts : string;
  g_direction : string;
  g_proto : string;
  g_tag : string;
  g_length : string
}.

(** [event_re.match(line)]:
    [^(\d{4}/\d{2}/\d{2} \d{2}:\d{2}:\d{2}) (send|recv) (tcp|udp) tag (\d+) len (\d+)] *)
Definition event_re_match (line : string) : option groups :=
  '(ts, r) <- timestamp_pat line ;;
  '(_, r) <- lit " " r ;;
  '(direction, r) <- alt (lit "send") (lit "recv") r ;;
  '(_, r) <- lit " " r ;;
  '(proto, r) <- alt (lit "tcp") (lit "udp") r ;;
  '(_, r) <- lit " tag " r ;;
  '(tag, r) <- many1 is_digit r ;;
  '(_, r) <- lit " len " r ;;
  '(len, _) <- many1 is_digit r ;;
  Some (Groups ts direction proto tag len).

(** [size_re.match(line)], as a truth value:
    [^\d{4}/\d{2}/\d{2} \d{2}:\d{2}:\d{2} (send|recv) \d+ bytes] *)
Definition size_re_match (line : string) : bool :=
  match
    ('(_, r) <- timestamp_pat line ;;
     '(_, r) <- lit " " r ;;
     '(_, r) <- alt (lit "send") (lit "recv") r ;;
     '(_, r) <- lit " " r ;;
     '(_, r) <- many1 is_digit r ;;
     lit " bytes" r)
  with
  | Some _ => true
  | None => false
  end.

(** [hex_re.match(line)], as a truth value: [^[0-9a-f]{8}] *)
Definition hex_re_match (line : string) : bool :=
  match chars 8 is_hex line with
  | Some _ => true
  | None => false
  end.

(** [byte_re.findall(line)] for [([0-9a-f]{2})]: the scan goes from left
    to right over the WHOLE line; where two characters of the class stand
    next to each other they are one match and the scan resumes after
    them, otherwise it moves on by one character. *)
Fixpoint byte_re_findall (line : string) : list string :=
  match line with
  | String a (String b rest as tl) =>
      if is_hex a && is_hex b
      then String a (String b EmptyString) :: byte_re_findall rest
      else byte_re_findall tl
  | _ => []
  end.

(** ** Decoding and encoding of bytes *)

(** The value of one hexadecimal digit, as [int(_, 16)] reads it. *)
Definition hex_digit (c : ascii) : option Z :=
  let n := Z.of_nat (nat_of_ascii c) in
  if is_digit c then Some (n - 48)%Z
  else if is_a_f c then Some (n - 87)%Z
  else if (65 <=? nat_of_ascii c) && (nat_of_ascii c <=? 70) then Some (n - 55)%Z
  else None.

(** [int(b, 16)] on the strings that [byte_re] can match, read digit by
    digit from the left; [None] is the [ValueError] that [int] raises on
    a character that is no hexadecimal digit. *)
Fixpoint int16_from (acc : Z) (b : string) : option Z :=
  match b with
  | EmptyString => Some acc
  | String c b' =>
      match hex_digit c with
      | Some d => int16_from (16 * acc + d)%Z b'
      | None => None
      end
  end.

Definition int16 (b : string) : option Z :=
  match b with
  | EmptyString => None
  | _ => int16_from 0%Z b
  end.

(** The inner [for b in byte_re.findall(line): data.append(int(b, 16))].
    [bytearray.append] raises [ValueError] outside [range(256)]; [None]
    when [int] or [append] raises. *)
Fixpoint append_bytes (data : list Z) (bs : list string) : option (list Z) :=
  match bs with
  | [] => Some data
  | b :: bs' =>
      match int16 b with
      | Some v =>
          if ((0 <=? v) && (v <? 256))%Z
          then append_bytes (data ++ [v]) bs'
          else None
      | None => None
      end
  end.

Module Base64.

(** The standard alphabet. *)
Definition table : string :=
  "ABCDEFGHIJKLMNOPQRSTUVWXYZabcdefghijklmnopqrstuvwxyz0123456789+/".

Definition enc (v : Z) : ascii :=
  match String.get (Z.to_nat v) table with
  | Some c => c
  | None => "="%char
  end.

(** [base64.b64encode(data).decode('ascii')]: three bytes give four
    characters; a last group of one or two bytes is padded with [=]. *)
Fixpoint b64encode (data : list Z) : string :=
  match data with
  | [] => EmptyString
  | [a] =>
      String (enc (Z.shiftr a 2))
     (String (enc (Z.shiftl (Z.land a 3) 4))
     (String "="%char (String "="%char EmptyString)))
  | [a; b] =>
      String (enc (Z.shiftr a 2))
     (String (enc (Z.lor (Z.shiftl (Z.land a 3) 4) (Z.shiftr b 4)))
     (String (enc (Z.shiftl (Z.land b 15) 2))
     (String "="%char EmptyString)))
  | a :: b :: c :: rest =>
      String (enc (Z.shiftr a 2))
     (String (enc (Z.lor (Z.shiftl (Z.land a 3) 4) (Z.shiftr b 4)))
     (String (enc (Z.lor (Z.shiftl (Z.land b 15) 2) (Z.shiftr c 6)))
     (String (enc (Z.land c 63))
        (b64encode rest))))
  end.

End Base64.
Import Base64.

(** ** The extraction loop *)

(** One element of [output]: the dictionary with the keys ['timestamp']
    and ['data']. *)
Record record := mk_record {
  timestamp : string;
  data : string
}.

(** The cap on [len(output)]. *)
Definition cap : nat := 3.
Arguments cap : simpl never.

(** The test of line 19:
    [direction == 'recv' and proto == 'udp' and tag == '2']. *)
Definition wanted (g : groups) : bool :=
  (g_direction g =? "recv")%string &&
  (g_proto g =? "udp")%string &&
  (g_tag g =? "2")%string.

(** The inner loop, lines 26-29:
    [while i < len(lines) and hex_re.match(lines[i])]. *)
Equations? hex_loop (lines : list string) (i : nat) (acc : list Z)
  : option (nat * list Z) by wf (List.length lines - i) lt :=
hex_loop lines i acc with inspect (nth_error lines i) := {
  | exist _ None _ := Some (i, acc);
  | exist _ (Some l) Hl with hex_re_match l := {
      | false := Some (i, acc);
      | true with append_bytes acc (byte_re_findall l) := {
          | None := None;
          | Some acc' := hex_loop lines (S i) acc' } } }.
Proof.
  assert (i < List.length lines) by (apply nth_error_Some; congruence).
  lia.
Qed.

(** Lines 22-33, for a header found at [lines[i]] that passed the test:
    step over the header, over a size line if one follows, read the hex
    dump and append the record. *)
Definition extract (lines : list string) (i : nat) (ts : string)
    (output : list record) : option (nat * list record) :=
  let i := S i in
  let i :=
    match nth_error lines i with
    | Some l => if size_re_match l then S i else i
    | None => i
    end in
  '(i, acc) <- hex_loop lines i [] ;;
  Some (i, output ++ [mk_record ts (b64encode acc)]).

(** The body of the outer loop, lines 14-33, at a cursor [i] with
    [lines[i] = l]. *)
Definition body (lines : list string) (i : nat) (l : string)
    (output : list record) : option (nat * list record) :=
  match event_re_match l with
  | None => Some (S i, output)
  | Some g =>
      if negb (wanted g) then Some (S i, output)
      else extract lines i (g_ts g) output
  end.

(** The outer loop, line 13:
    [while i < len(lines) and len(output) < 3], with the final cursor. *)
Equations? scan (lines : list string) (i : nat) (output : list record)
  : option (nat * list record) by wf (List.length lines - i) lt :=
scan lines i output with inspect (nth_error lines i) := {
  | exist _ None _ := Some (i, output);
  | exist _ (Some l) Hl with List.length output <? cap := {
      | false := Some (i, output);
      | true with inspect (body lines i l output) := {
          | exist _ None _ := None;
          | exist _ (Some (i', output')) Hb := scan lines i' output' } } }.
Proof.
  (* every path through the body moves the cursor forwards *)
  assert (Hge : forall ls k acc k' acc',
             hex_loop ls k acc = Some (k', acc') -> k <= k').
  { clear. intros ls k acc.
    funelim (hex_loop ls k acc); intros k' acc'' Hr; try congruence.
    - injection Hr as <- <-. lia.
    - injection Hr as <- <-. lia.
    - match goal with IH : forall _ _, _ -> S _ <= _ |- _ =>
        specialize (IH _ _ Hr) end.
      lia. }
  assert (Hlt : i < i').
  { unfold body, extract in Hb.
    destruct (event_re_match l) as [g|]; [|injection Hb as <- <-; lia].
    destruct (negb (wanted g)); [injection Hb as <- <-; lia|].
    destruct (hex_loop _ _ _) as [[j acc]|] eqn:Hh; [|discriminate].
    injection Hb as <- <-. apply Hge in Hh.
    destruct (nth_error lines (S i)) as [l'|];
      [destruct (size_re_match l')|]; lia. }
  assert (i < List.length lines) by (apply nth_error_Some; congruence).
  lia.
Qed.

(** ** The run over the log files *)

(** [sorted(...)] on a list of paths: the order of Python on [str] is the
    lexicographic order on character codes, [String.leb]. *)
Fixpoint insert_path (p : string) (ps : list string) : list string :=
  match ps with
  | [] => [p]
  | q :: qs => if String.leb p q then p :: ps else q :: insert_path p qs
  end.

Definition sorted (ps : list string) : list string :=
  fold_right insert_path [] ps.

(** The file system as the program sees it: [open(path)] followed by
    [f.readlines()] gives the lines of the file, or fails. *)
Definition file_system := string -> option (list string).

(** How a run ends: [json.dump] receives [output], or an exception
    leaves the program before the output file is opened. *)
Inductive outcome :=
| Dumped (output : list record)
| IOError (path : string)
| ValueError.

(** The [for path in ...] loop, lines 9-33.  Next to the outcome it
    returns the files that were opened, read and scanned, in order, each
    with the value of the cursor [i] when its [while] loop ended. *)
Fixpoint for_files (fs : file_system) (paths : list string)
    (output : list record) (read : list (string * nat))
  : list (string * nat) * outcome :=
  match paths with
  | [] => (read, Dumped output)
  | path :: paths' =>
      match fs path with
      | None => (read, IOError path)
      | Some lines =>
          match scan lines 0 output with
          | None => (read, ValueError)
          | Some (i, output') =>
              for_files fs paths' output' (read ++ [(path, i)])
          end
      end
  end.

(** The whole script, for the paths that [glob.glob] returned. *)
Definition main (fs : file_system) (globbed : list string)
  : list (string * nat) * outcome :=
  for_files fs (sorted globbed) [] [].

(** ** The script in its environment

    [main] follows the loops with an input that is either missing or
    read.  The script can fail in more ways: [open] of an input can
    raise, [readlines] can raise on a file that opened (a text that
    cannot be decoded, an error of the device), and at the end [open] of
    the output or the writing of [json.dump] can raise. *)

(** What [open(path)] and [f.readlines()] do with an input path. *)
Inductive input_file :=
| Readable (lines : list string)
| OpenRaises
| ReadRaises.

(** What [open(..., 'w')] and [json.dump] do with the output path. *)
Inductive output_file :=
| Writable
| OutputOpenRaises
| OutputWriteRaises.

Record environment := Environment {
  env_inputs : string -> input_file;
  env_output : output_file
}.

(** The exceptions that end the script. *)
Inductive exception :=
| InputOpenError (path : string)
| InputReadError (path : string)
| DecodeError
| OutputOpenError
| OutputWriteError.

(** How the script ends: [json.dump] has written [output] to the output
    file, or an exception has left the script. *)
Inductive final :=
| Written (output : list record)
| Raised (e : exception).

(** Lines 9-33 in the environment: the loop over the paths, with the
    exception that ends it or the output it builds. *)
Fixpoint read_files (env : environment) (paths : list string)
    (output : list record) : exception + list record :=
  match paths with
  | [] => inr output
  | path :: paths' =>
      match env_inputs env path with
      | OpenRaises => inl (InputOpenError path)
      | ReadRaises => inl (InputReadError path)
      | Readable lines =>
          match scan lines 0 output with
          | None => inl DecodeError
          | Some (_, output') => read_files env paths' output'
          end
      end
  end.

(** The whole script, lines 8-36. *)
Definition script (env : environment) (globbed : list string) : final :=
  match read_files env (sorted globbed) [] with
  | inl e => Raised e
  | inr output =>
      match env_output env with
      | Writable => Written output
      | OutputOpenRaises => Raised OutputOpenError
      | OutputWriteRaises => Raised OutputWriteError
      end
  end.

(** The lines of the inputs that can be read. *)
Definition lines_of (env : environment) : file_system := fun p =>
  match env_inputs env p with
  | Readable lines => Some lines
  | OpenRaises | ReadRaises => None
  end.

(** * Vocabulary of the properties *)

(** The byte a match of [byte_re] stands for. *)
Definition byte_of (b : string) : Z :=
  match int16 b with
  | Some v => v
  | None => 0%Z
  end.

(** The bytes one line contributes to the accumulator. *)
Definition line_bytes (l : string) : list Z :=
  map byte_of (byte_re_findall l).

(** The matches of [byte_re] are pairs of characters of the class. *)
Definition two_hex (b : string) : Prop :=
  exists a c, b = String a (String c EmptyString) /\
              is_hex a = true /\ is_hex c = true.

(** The hex dump at the head of a list of lines: the longest run of lines
    that match [hex_re]. *)
Fixpoint hex_run (ls : list string) : list string :=
  match ls with
  | l :: ls' => if hex_re_match l then l :: hex_run ls' else []
  | [] => []
  end.

(** The cursor after a header at [lines[i]] and the size line that may
    follow it. *)
Definition dump_start (lines : list string) (i : nat) : nat :=
  match nth_error lines (S i) with
  | Some l => if size_re_match l then S (S i) else S i
  | None => S i
  end.

(** The lines of the hex dump of the event whose header is [lines[i]]. *)
Definition dump_lines (lines : list string) (i : nat) : list string :=
  hex_run (skipn (dump_start lines i) lines).

(** The cursor after that event. *)
Definition event_end (lines : list string) (i : nat) : nat :=
  dump_start lines i + List.length (dump_lines lines i).

(** The bytes of that event. *)
Definition event_bytes (lines : list string) (i : nat) : list Z :=
  flat_map line_bytes (dump_lines lines i).

(** The records one turn of the loop body appends at the line [k]. *)
Definition event_at (lines : list string) (k : nat) : list record :=
  match nth_error lines k with
  | Some l =>
      match body lines k l [] with
      | Some (_, new) => new
      | None => []
      end
  | None => []
  end.

(** The records of all the headers from the line [i] on, in line order. *)
Definition events_from (lines : list string) (i : nat) : list record :=
  flat_map (event_at lines) (List.seq i (List.length lines - i)).

(** The qualifying events of a file. *)
Definition events (lines : list string) : list record :=
  events_from lines 0.

(** The order of [sorted] on paths. *)
Definition path_le (p q : string) : Prop := String.leb p q = true.

(** The qualifying events of the file at a path. *)
Definition file_events (fs : file_system) (p : string) : list record :=
  match fs p with
  | Some lines => events lines
  | None => []
  end.

(** All the characters of [s] are in the class. *)
Fixpoint string_forallb (cls : ascii -> bool) (s : string) : bool :=
  match s with
  | EmptyString => true
  | String c s' => cls c && string_forallb cls s'
  end.

(** The line starts with [n] characters of the class. *)
Definition begins_with (n : nat) (cls : ascii -> bool) (l : string) : Prop :=
  exists pre suf, l = (pre ++ suf)%string /\ String.length pre = n /\
                  string_forallb cls pre = true.

(** A hexadecimal digit in either case, [[0-9a-fA-F]]. *)
Definition is_xdigit (c : ascii) : bool :=
  is_hex c || ((65 <=? nat_of_ascii c) && (nat_of_ascii c <=? 70)).

(** The claim that the case of the letters does not matter: the line
    after a qualifying header, when it starts with eight hexadecimal
    digits in either case, is read as a line of the dump, so the cursor
    ends behind it. *)
Definition hex_lines_any_case : Prop :=
  forall lines i l g h output,
    nth_error lines i = Some l ->
    event_re_match l = Some g -> wanted g = true ->
    nth_error lines (S i) = Some h ->
    begins_with 8 is_xdigit h ->
    exists j output', body lines i l output = Some (j, output') /\ S i < j.

(** The claim that a line other than a hex-dump line behind the header
    is enough for an empty payload. *)
Definition empty_after_any_non_hex_line : Prop :=
  forall lines i l g l' output,
    nth_error lines i = Some l ->
    event_re_match l = Some g -> wanted g = true ->
    nth_error lines (S i) = Some l' ->
    hex_re_match l' = false ->
    exists j, body lines i l output =
              Some (j, output ++ [mk_record (g_ts g) EmptyString]).

(** There is no hex dump behind the header at [lines[i]]: the header is
    the last line, or the next line is neither a size line nor a hex-dump
    line, or it is a size line and the line behind it is no hex-dump
    line (or does not exist). *)
Definition no_dump_behind (lines : list string) (i : nat) : Prop :=
  nth_error lines (S i) = None \/
  (exists l', nth_error lines (S i) = Some l' /\
              size_re_match l' = false /\ hex_re_match l' = false) \/
  (exists s, nth_error lines (S i) = Some s /\ size_re_match s = true /\
             match nth_error lines (S (S i)) with
             | Some l' => hex_re_match l' = false
             | None => True
             end).

(** The text [p] occurs in the line [l]. *)
Definition occurs_in (p l : string) : Prop := String.index 0 p l <> None.

(** The claim that a hex-dump line in which the four tokens occur, spaced
    or not, decodes to the four bytes. *)
Definition deadbeef_anywhere : Prop :=
  forall lines i l g h output,
    nth_error lines i = Some l ->
    event_re_match l = Some g -> wanted g = true ->
    nth_error lines (S i) = Some h ->
    hex_re_match h = true ->
    occurs_in "de ad be ef" h \/ occurs_in "deadbeef" h ->
    event_bytes lines i = [222; 173; 190; 239]%Z /\
    exists j, body lines i l output =
              Some (j, output ++ [mk_record (g_ts g) "3q2+7w=="]).

(** The timestamp a line contributes when it is a qualifying header. *)
Definition header_timestamp (l : string) : list string :=
  match event_re_match l with
  | Some g => if wanted g then [g_ts g] else []
  | None => []
  end.

(** The timestamps of the qualifying headers of a file, in line order. *)
Definition file_timestamps (fs : file_system) (p : string) : list string :=
  match fs p with
  | Some lines => flat_map header_timestamp lines
  | None => []
  end.

(** [open(p)] raises. *)
Definition unreadable (fs : file_system) (p : string) : bool :=
  match fs p with
  | None => true
  | Some _ => false
  end.

(** The paths in front of the first one that cannot be opened. *)
Fixpoint readable_prefix (fs : file_system) (paths : list string)
  : list string :=
  match paths with
  | [] => []
  | p :: paths' =>
      if unreadable fs p then [] else p :: readable_prefix fs paths'
  end.

(** A file without a qualifying header: no line of it passes both
    [event_re] and the test on its groups. *)
Definition no_qualifying_header (lines : list string) : Prop :=
  forall l g, In l lines -> event_re_match l = Some g -> wanted g = false.

(** * Concrete logs *)

(** A line as [readlines] returns it, with its newline. *)
Definition ln (s : string) : string :=
  (s ++ String "010"%char EmptyString)%string.

(** The file [debug-1.log] of the example: a header that does not
    qualify, a header that does, its size line and one hex-dump line. *)
Definition debug_1_log : list string :=
  [ ln "2025/07/14 09:15:01 send tcp tag 1 len 4";
    ln "2025/07/14 09:15:02 recv udp tag 2 len 2";
    ln "2025/07/14 09:15:02 recv 2 bytes";
    ln "00000000  ab cd" ].

(** A directory that holds this one log. *)
Definition example_fs : file_system := fun p =>
  if (p =? "go_client/debug-1.log")%string then Some debug_1_log else None.

(** The claim about the example: the one record of the output holds
    [q80=], the encoding of the two bytes [0xAB 0xCD]. *)
Definition example_gives_q80 : Prop :=
  exists read ts,
    main example_fs ["go_client/debug-1.log"] =
    (read, Dumped [mk_record ts "q80="]).

(** A second file: three qualifying events (with a dump, without one,
    with a size line and a dump) and a header that does not qualify. *)
Definition debug_2_log : list string :=
  [ ln "2025/07/14 09:16:01 recv udp tag 2 len 2";
    ln "00000010  01 02";
    ln "2025/07/14 09:16:02 recv udp tag 2 len 0";
    ln "2025/07/14 09:16:03 recv tcp tag 2 len 1";
    ln "2025/07/14 09:16:04 recv udp tag 2 len 4";
    ln "2025/07/14 09:16:04 recv 4 bytes";
    ln "deadbeef" ].

(** A file without a qualifying header. *)
Definition debug_4_log : list string :=
  [ ln "2025/07/14 09:18:01 send tcp tag 1 len 4";
    ln "00000000  ab cd";
    ln "2025/07/14 09:18:02 recv udp tag 02 len 2" ].

(** A directory with four logs; [debug-3.log] is listed by no entry and
    cannot be opened. *)
Definition logs_fs : file_system := fun p =>
  if (p =? "go_client/debug-0.log")%string then Some debug_2_log
  else if (p =? "go_client/debug-1.log")%string then Some debug_1_log
  else if (p =? "go_client/debug-2.log")%string then Some debug_2_log
  else if (p =? "go_client/debug-4.log")%string then Some debug_4_log
  else None.

(** Two paths, in an order that [sorted] has to change. *)
Definition logs_globbed : list string :=
  ["go_client/debug-2.log"; "go_client/debug-1.log"].

(** A header whose tag has the value two and is not written [2]. *)
Definition header_02 : string := "2025/07/14 09:18:02 recv udp tag 02 len 2".

(** A qualifying header and its groups. *)
Definition header_2 : string := "2025/07/14 09:15:02 recv udp tag 2 len 2".

Definition groups_2 : groups :=
  Groups "2025/07/14 09:15:02" "recv" "udp" "2" "2".

(** What the run over [logs_globbed] reads and gives. *)
Definition logs_read : list (string * nat) :=
  [("go_client/debug-1.log", 4); ("go_client/debug-2.log", 3)].

Definition logs_output : list record :=
  [ mk_record "2025/07/14 09:15:02" "AAAAAKvN";
    mk_record "2025/07/14 09:16:01" "AAAAEAEC";
    mk_record "2025/07/14 09:16:02" EmptyString ].

(** Three paths, the last of them in sorted order cannot be opened. *)
Definition globbed_with_missing : list string :=
  ["go_client/debug-3.log"; "go_client/debug-1.log"; "go_client/debug-0.log"].

(** * Further vocabulary *)

(** [len(lines)] for the file at a path. *)
Definition file_length (fs : file_system) (p : string) : nat :=
  match fs p with
  | Some lines => List.length lines
  | None => 0
  end.

(** A value that fits a byte. *)
Definition is_byte (v : Z) : Prop := (0 <= v < 256)%Z.

(** The lower-case hexadecimal digit of a value below sixteen. *)
Definition hex_char (d : Z) : ascii :=
  match String.get (Z.to_nat d) "0123456789abcdef" with
  | Some c => c
  | None => "0"%char
  end.

(** A byte written as two lower-case hexadecimal digits. *)
Definition hex2 (v : Z) : string :=
  String (hex_char (v / 16)) (String (hex_char (v mod 16)) EmptyString).

(** No character of [s] is in the class [[0-9a-f]]. *)
Definition no_hex_char (s : string) : bool :=
  string_forallb (fun c => negb (is_hex c)) s.

(** The lines of the hex dump behind a header, given the lines that
    follow the header: a size line at their head is stepped over. *)
Definition dump_behind (rest : list string) : list string :=
  hex_run
    match rest with
    | s :: rest' => if size_re_match s then rest' else rest
    | [] => []
    end.

(** A character of the base64 alphabet, or the padding [=]. *)
Definition is_b64_char (c : ascii) : bool :=
  let n := nat_of_ascii c in
  ((65 <=? n) && (n <=? 90)) || ((97 <=? n) && (n <=? 122)) ||
  ((48 <=? n) && (n <=? 57)) || (n =? 43) || (n =? 47) || (n =? 61).

(** What a matcher matched is matched again, as a whole, whatever
    follows it. *)
Definition stable (m : matcher) : Prop :=
  forall s t r x, m s = Some (t, r) -> m (t ++ x)%string = Some (t, x).

(** ** The output file

    [json.dump(output, out, indent=2)], lines 35-36, with the defaults of
    the [json] module: [ensure_ascii] is on, and with an indent the items
    are separated by a comma and a newline, a key from its value by a
    colon and a blank. *)

Definition dquote : ascii := ascii_of_nat 34.

Definition newline : string := String (ascii_of_nat 10) EmptyString.

(** One character inside a JSON string.  The quote and the backslash are
    escaped with a backslash, five control characters have a short
    escape, every other character outside the range from the blank to
    [~] is written as [\u00] and two lower-case hexadecimal digits. *)
Definition json_escape (c : ascii) : string :=
  let n := nat_of_ascii c in
  if n =? 34 then String "\"%char (String dquote EmptyString)
  else if n =? 92 then "\\"
  else if n =? 10 then "\n"
  else if n =? 13 then "\r"
  else if n =? 9 then "\t"
  else if n =? 8 then "\b"
  else if n =? 12 then "\f"
  else if (32 <=? n) && (n <=? 126) then String c EmptyString
  else ("\u00" ++ hex2 (Z.of_nat n))%string.

Fixpoint json_escape_string (s : string) : string :=
  match s with
  | EmptyString => EmptyString
  | String c s' => (json_escape c ++ json_escape_string s')%string
  end.

(** A string as [json] writes it. *)
Definition json_string (s : string) : string :=
  String dquote (json_escape_string s ++ String dquote EmptyString)%string.

(** A text between quotes, as it is. *)
Definition quoted (s : string) : string :=
  String dquote (s ++ String dquote EmptyString)%string.

(** One record, at the second level of the indentation; the keys come in
    the order in which the dictionary was built. *)
Definition json_record (r : record) : string :=
  ("{" ++ newline ++
   "    " ++ json_string "timestamp" ++ ": " ++ json_string (timestamp r) ++
   "," ++ newline ++
   "    " ++ json_string "data" ++ ": " ++ json_string (data r) ++
   newline ++ "  }")%string.

(** The text of the output file. *)
Definition json_dump (output : list record) : string :=
  match output with
  | [] => "[]"
  | r :: rs =>
      ("[" ++ newline ++ "  " ++ json_record r ++
       String.concat EmptyString
         (map (fun r' => "," ++ newline ++ "  " ++ json_record r') rs) ++
       newline ++ "]")%string
  end.

(** A character that [json] writes as it is. *)
Definition is_json_plain (c : ascii) : bool :=
  let n := nat_of_ascii c in
  (32 <=? n) && (n <=? 126) && negb (n =? 34) && negb (n =? 92).

(** A character of a timestamp. *)
Definition is_timestamp_char (c : ascii) : bool :=
  is_digit c || Ascii.eqb c "/" || Ascii.eqb c ":" || Ascii.eqb c " ".

(** A text of ASCII characters only.  On such a text the characters of
    the model are the characters the script sees, and [\d] is [0-9]. *)
Definition is_ascii_text (s : string) : bool :=
  string_forallb (fun c => nat_of_ascii c <? 128) s.

(** Every line of every globbed file that can be read is ASCII text. *)
Definition ascii_inputs (fs : file_system) (globbed : list string) : Prop :=
  forall p lines l,
    In p globbed -> fs p = Some lines -> In l lines ->
    is_ascii_text l = true.

(** A text of one or more digits. *)
Definition is_number (t : string) : bool :=
  negb (t =? EmptyString)%string && string_forallb is_digit t.

(** The text does not start with a digit. *)
Definition starts_without_digit (s : string) : Prop :=
  match s with
  | String c _ => is_digit c = false
  | EmptyString => True
  end.

(** The groups of a header are well formed: a timestamp, one of the two
    directions, one of the two protocols, and two numbers. *)
Definition well_formed_groups (g : groups) : Prop :=
  timestamp_pat (g_ts g) = Some (g_ts g, EmptyString) /\
  (g_direction g = "send" \/ g_direction g = "recv") /\
  (g_proto g = "tcp" \/ g_proto g = "udp") /\
  is_number (g_tag g) = true /\
  is_number (g_length g) = true.

(** What a matcher matched and what it left make up its input. *)
Definition sound (m : matcher) : Prop :=
  forall s t r, m s = Some (t, r) -> s = (t ++ r)%string.

(** A matcher that gives the same match whether the line has its
    newline or not; the newline stays in what is left. *)
Definition eol_blind (m : matcher) : Prop :=
  forall s,
    m (ln s) =
    match m s with
    | Some (t, r) => Some (t, ln r)
    | None => None
    end.

(** The newline does not occur in the text. *)
Definition no_newline (p : string) : bool :=
  string_forallb (fun a => negb (Ascii.eqb a "010")) p.

(** The place of a character in a text, counted from [k]. *)
Fixpoint index_from (k : Z) (c : ascii) (s : string) : option Z :=
  match s with
  | EmptyString => None
  | String a s' => if Ascii.eqb a c then Some k else index_from (k + 1) c s'
  end.

(** The value of a character of the base64 alphabet. *)
Definition b64_value (c : ascii) : option Z := index_from 0 c table.

(** A reader for the texts that [b64encode] writes, by groups of four
    characters; it serves to show that the data determines the bytes. *)
Fixpoint b64decode (s : string) : option (list Z) :=
  match s with
  | EmptyString => Some []
  | String c1 (String c2 (String c3 (String c4 rest))) =>
      match b64_value c1, b64_value c2 with
      | Some s1, Some s2 =>
          let a := Z.lor (Z.shiftl s1 2) (Z.shiftr s2 4) in
          match b64_value c3 with
          | None => Some [a]
          | Some s3 =>
              let b := Z.lor (Z.shiftl (Z.land s2 15) 4) (Z.shiftr s3 2) in
              match b64_value c4 with
              | None => Some [a; b]
              | Some s4 =>
                  let c := Z.lor (Z.shiftl (Z.land s3 3) 6) s4 in
                  match b64decode rest with
                  | Some l => Some (a :: b :: c :: l)
                  | None => None
                  end
              end
          end
      | _, _ => None
      end
  | _ => None
  end.

(** The bytes. *)
Definition all_bytes : list Z := map Z.of_nat (List.seq 0 256).

(** The value [v] is written and read back. *)
Definition b64_back (v : Z) : bool :=
  match b64_value (enc v) with
  | Some w => (w =? v)%Z
  | None => false
  end.

(** * Properties of the patterns *)

Section Matchers.

Variable cls : ascii -> bool.

(** What [cls{n}] matched is a prefix of the input. *)
Lemma chars_inv n s t r :
  chars n cls s = Some (t, r) -> s = (t ++ r)%string /\ String.length t = n.
Proof.
  revert s t r. induction n as [|n IH]; intros s t r; simpl.
  - intros [= <- <-]. auto.
  - destruct s as [|b s']; [discriminate|].
    destruct (cls b); [|discriminate].
    destruct (chars n cls s') as [[t' r']|] eqn:E; [|discriminate].
    intros [= <- <-]. apply IH in E as [-> <-]. auto.
Qed.

Lemma chars_S_inv n s t r :
  chars (S n) cls s = Some (t, r) ->
  exists b s', s = String b s' /\ cls b = true.
Proof.
  simpl. destruct s as [|b s']; [discriminate|].
  destruct (cls b) eqn:E; [|discriminate]. eauto.
Qed.

(** [cls+] fails on an input that starts outside the class. *)
Lemma many1_head b s : cls b = false -> many1 cls (String b s) = None.
Proof. intros E. unfold many1. simpl. rewrite E. reflexivity. Qed.

End Matchers.

Lemma lit_inv p s t r :
  lit p s = Some (t, r) -> t = p /\ s = (p ++ r)%string.
Proof.
  revert s t r. induction p as [|a p IH]; intros s t r; simpl.
  - intros [= <- <-]. auto.
  - destruct s as [|b s']; [discriminate|].
    destruct (Ascii.eqb_spec a b) as [<-|]; [|discriminate].
    destruct (lit p s') as [[t' r']|] eqn:E; [|discriminate].
    intros [= <- <-]. apply IH in E as [-> ->]. auto.
Qed.

Lemma seq_inv p q s t r :
  seq p q s = Some (t, r) ->
  exists t1 r1 t2, p s = Some (t1, r1) /\ q r1 = Some (t2, r).
Proof.
  unfold seq. destruct (p s) as [[t1 r1]|]; [|discriminate].
  destruct (q r1) as [[t2 r2]|] eqn:E; [|discriminate].
  intros [= <- <-]. eauto.
Qed.

(** Behind what [cls*] matched there is no further character of the
    class: the run is the longest one. *)
Lemma many_maximal cls s :
  match snd (many cls s) with
  | String c _ => cls c = false
  | EmptyString => True
  end.
Proof.
  induction s as [|b s IH]; simpl; [exact I|].
  destruct (cls b) eqn:E; [|exact E].
  destruct (many cls s) as [t r]. exact IH.
Qed.

(** A literal that starts outside the class does not match inside a run
    of the class: giving back characters of a greedy [cls+] leads
    nowhere. *)
Lemma lit_inside_run cls a p t r :
  cls a = false -> t <> EmptyString -> string_forallb cls t = true ->
  lit (String a p) (t ++ r)%string = None.
Proof.
  intros Ha Ht Hall. destruct t as [|c t]; [congruence|].
  simpl in *. apply andb_true_iff in Hall as [Hc _].
  destruct (Ascii.eqb_spec a c) as [<-|]; [congruence|reflexivity].
Qed.

(** The alternatives of the two groups exclude each other. *)
Lemma alternatives_exclusive s :
  (lit "send" s <> None -> lit "recv" s = None) /\
  (lit "tcp" s <> None -> lit "udp" s = None).
Proof.
  split; intros H.
  - destruct (lit "send" s) as [[t r]|] eqn:E; [|congruence].
    apply lit_inv in E as [_ ->]. reflexivity.
  - destruct (lit "tcp" s) as [[t r]|] eqn:E; [|congruence].
    apply lit_inv in E as [_ ->]. reflexivity.
Qed.

(** A line that starts with a timestamp has [/] as its fifth character. *)
Lemma timestamp_pat_shape l ts r :
  timestamp_pat l = Some (ts, r) ->
  exists c0 c1 c2 c3 l',
    l = String c0 (String c1 (String c2 (String c3 (String "/" l')))).
Proof.
  unfold timestamp_pat. intros H.
  apply seq_inv in H as (t1 & r1 & t2 & H1 & H2).
  apply seq_inv in H2 as (t3 & r3 & t4 & H3 & _).
  apply chars_inv in H1 as [-> Hlen]. apply lit_inv in H3 as [_ ->].
  destruct t1 as [|c0 [|c1 [|c2 [|c3 [|c4 t1]]]]]; try discriminate.
  simpl. eauto 6.
Qed.

(** A header line is no hex-dump line. *)
Lemma event_not_hex l g : event_re_match l = Some g -> hex_re_match l = false.
Proof.
  unfold event_re_match.
  destruct (timestamp_pat l) as [[ts r]|] eqn:E; [|discriminate]. intros _.
  apply timestamp_pat_shape in E as (c0 & c1 & c2 & c3 & l' & ->).
  unfold hex_re_match. simpl.
  destruct (is_hex c0), (is_hex c1), (is_hex c2), (is_hex c3); reflexivity.
Qed.

(** A size line is no hex-dump line either. *)
Lemma size_not_hex l : size_re_match l = true -> hex_re_match l = false.
Proof.
  unfold size_re_match.
  destruct (timestamp_pat l) as [[ts r]|] eqn:E; [|discriminate]. intros _.
  apply timestamp_pat_shape in E as (c0 & c1 & c2 & c3 & l' & ->).
  unfold hex_re_match. simpl.
  destruct (is_hex c0), (is_hex c1), (is_hex c2), (is_hex c3); reflexivity.
Qed.

(** A header line is no size line: after the direction the one goes on
    with a letter, the other with a digit. *)
Lemma event_not_size l g : event_re_match l = Some g -> size_re_match l = false.
Proof.
  unfold event_re_match, size_re_match.
  destruct (timestamp_pat l) as [[ts r]|]; [|reflexivity].
  destruct (lit " " r) as [[t1 r1]|]; [|reflexivity].
  destruct (alt (lit "send") (lit "recv") r1) as [[t2 r2]|]; [|reflexivity].
  destruct (lit " " r2) as [[t3 r3]|]; [|reflexivity].
  destruct (alt (lit "tcp") (lit "udp") r3) as [[t4 r4]|] eqn:E; [|discriminate].
  intros _. unfold alt in E.
  destruct (lit "tcp" r3) as [[t5 r5]|] eqn:E1.
  - apply lit_inv in E1 as [_ ->]. cbn [String.append].
    rewrite many1_head; reflexivity.
  - apply lit_inv in E as [_ ->]. cbn [String.append].
    rewrite many1_head; reflexivity.
Qed.

Example event_re_match_header :
  event_re_match (ln "2025/07/14 09:15:02 recv udp tag 2 len 2") =
  Some (Groups "2025/07/14 09:15:02" "recv" "udp" "2" "2").
Proof. reflexivity. Qed.

Example event_re_match_long_numbers :
  event_re_match "2025/07/14 09:15:02 send tcp tag 0017 len 1500 more" =
  Some (Groups "2025/07/14 09:15:02" "send" "tcp" "0017" "1500").
Proof. reflexivity. Qed.

Example event_re_match_size_line :
  event_re_match "2025/07/14 09:15:02 recv 2 bytes" = None.
Proof. reflexivity. Qed.

Example size_re_match_size_line :
  size_re_match (ln "2025/07/14 09:15:02 recv 2 bytes") = true.
Proof. reflexivity. Qed.

Example hex_re_match_short : hex_re_match "0000000 ab" = false.
Proof. reflexivity. Qed.

Example b64encode_vectors :
  b64encode [] = EmptyString /\
  b64encode [102]%Z = "Zg==" /\
  b64encode [102; 111]%Z = "Zm8=" /\
  b64encode [102; 111; 111]%Z = "Zm9v" /\
  b64encode [102; 111; 111; 98]%Z = "Zm9vYg==" /\
  b64encode [171; 205]%Z = "q80=" /\
  b64encode [222; 173; 190; 239]%Z = "3q2+7w==".
Proof. repeat split. Qed.

(** * Decoding never raises *)

Lemma hex_digit_range a :
  is_hex a = true -> exists d, hex_digit a = Some d /\ (0 <= d < 16)%Z.
Proof.
  unfold is_hex, hex_digit, is_digit, is_a_f.
  generalize (nat_of_ascii a). intros n H.
  destruct (Nat.leb_spec 48 n), (Nat.leb_spec n 57); cbn [andb orb] in *.
  1: eexists; split; [reflexivity|lia].
  all: apply andb_true_iff in H as [E3 E4]; rewrite E3, E4; cbn [andb];
       apply Nat.leb_le in E3, E4; eexists; (split; [reflexivity|lia]).
Qed.

Lemma int16_two_hex b :
  two_hex b -> exists v, int16 b = Some v /\ (0 <= v < 256)%Z.
Proof.
  intros (a & c & -> & Ha & Hc).
  apply hex_digit_range in Ha as (d1 & E1 & R1).
  apply hex_digit_range in Hc as (d2 & E2 & R2).
  unfold int16. cbn [int16_from]. rewrite E1. cbn [int16_from]. rewrite E2.
  eexists; split; [reflexivity|lia].
Qed.

Lemma byte_re_findall_two_hex l : Forall two_hex (byte_re_findall l).
Proof.
  enough (H : Forall two_hex (byte_re_findall l) /\
              forall a, Forall two_hex (byte_re_findall (String a l)))
    by apply H.
  induction l as [|b l [IH1 IH2]].
  - split; [constructor|]. intros a. constructor.
  - split; [apply IH2|]. intros a.
    change (byte_re_findall (String a (String b l))) with
      (if is_hex a && is_hex b
       then String a (String b EmptyString) :: byte_re_findall l
       else byte_re_findall (String b l)).
    destruct (is_hex a) eqn:Ha, (is_hex b) eqn:Hb; simpl; try apply IH2.
    constructor; [|exact IH1]. exists a, b. auto.
Qed.

Lemma append_bytes_two_hex bs acc :
  Forall two_hex bs -> append_bytes acc bs = Some (acc ++ map byte_of bs).
Proof.
  intros H. revert acc. induction H as [|b bs Hb _ IH]; intros acc; simpl.
  - now rewrite app_nil_r.
  - unfold byte_of at 1.
    destruct (int16_two_hex b Hb) as (v & -> & R).
    replace ((0 <=? v)%Z && (v <? 256)%Z) with true
      by (symmetry; apply andb_true_iff; split;
          [apply Z.leb_le | apply Z.ltb_lt]; lia).
    rewrite IH, <- app_assoc. reflexivity.
Qed.

(** The [for] loop over the matches of a line never raises: it appends
    the bytes of the line. *)
Lemma append_bytes_line acc l :
  append_bytes acc (byte_re_findall l) = Some (acc ++ line_bytes l).
Proof. apply append_bytes_two_hex, byte_re_findall_two_hex. Qed.

(** * The inner loop *)

Lemma skipn_nth_error_None {A} (ls : list A) i :
  nth_error ls i = None -> skipn i ls = [].
Proof. intros H. apply skipn_all2, nth_error_None, H. Qed.

Lemma skipn_nth_error_Some {A} (ls : list A) i x :
  nth_error ls i = Some x -> skipn i ls = x :: skipn (S i) ls.
Proof.
  revert i. induction ls as [|y ls IH]; intros [|i]; simpl; try discriminate.
  - now intros [= ->].
  - intros H. now rewrite (IH _ H).
Qed.

(** The inner loop returns: it stops after the hex dump that starts at the
    cursor, with the bytes of all the lines of the dump appended. *)
Lemma hex_loop_spec lines i acc :
  hex_loop lines i acc =
  Some (i + List.length (hex_run (skipn i lines)),
        acc ++ flat_map line_bytes (hex_run (skipn i lines))).
Proof.
  funelim (hex_loop lines i acc).
  - rewrite (skipn_nth_error_None _ _ e). simpl.
    now rewrite Nat.add_0_r, app_nil_r.
  - rewrite (skipn_nth_error_Some _ _ _ Hl). simpl. rewrite Heq. simpl.
    now rewrite Nat.add_0_r, app_nil_r.
  - rewrite append_bytes_line in Heq. injection Heq as <-.
    rewrite (skipn_nth_error_Some _ _ _ Hl). cbn [hex_run]. rewrite Heq0.
    cbn [flat_map List.length]. rewrite H, <- app_assoc.
    f_equal. f_equal. lia.
  - rewrite append_bytes_line in Heq. discriminate.
Qed.

Lemma hex_run_prefix ls : exists rest, ls = hex_run ls ++ rest.
Proof.
  induction ls as [|l ls [rest IH]]; simpl.
  - now exists [].
  - destruct (hex_re_match l).
    + exists rest. simpl. now rewrite <- IH.
    + now exists (l :: ls).
Qed.

Lemma hex_run_all ls : Forall (fun l => hex_re_match l = true) (hex_run ls).
Proof.
  induction ls as [|l ls IH]; simpl; [constructor|].
  destruct (hex_re_match l) eqn:E; constructor; assumption.
Qed.

Lemma hex_run_length ls : List.length (hex_run ls) <= List.length ls.
Proof.
  destruct (hex_run_prefix ls) as [rest E].
  rewrite E at 2. rewrite length_app. lia.
Qed.

(** The lines the inner loop steps over are hex-dump lines. *)
Lemma hex_run_nth lines j k :
  j <= k < j + List.length (hex_run (skipn j lines)) ->
  exists l, nth_error lines k = Some l /\ hex_re_match l = true.
Proof.
  intros Hk.
  destruct (hex_run_prefix (skipn j lines)) as [rest E].
  assert (Hn : nth_error lines k = nth_error (skipn j lines) (k - j)).
  { rewrite nth_error_skipn. f_equal. lia. }
  rewrite E in Hn. rewrite nth_error_app1 in Hn by lia.
  destruct (nth_error (hex_run (skipn j lines)) (k - j)) as [l|] eqn:El.
  - exists l. split; [exact Hn|].
    apply nth_error_In in El.
    exact (proj1 (Forall_forall _ _) (hex_run_all _) _ El).
  - apply nth_error_None in El. lia.
Qed.

(** * One turn of the outer loop *)

Lemma extract_spec lines i ts output :
  extract lines i ts output =
  Some (event_end lines i,
        output ++ [mk_record ts (b64encode (event_bytes lines i))]).
Proof.
  unfold extract. fold (dump_start lines i).
  rewrite hex_loop_spec. reflexivity.
Qed.

Lemma event_at_not_header lines k l :
  nth_error lines k = Some l -> event_re_match l = None ->
  event_at lines k = [].
Proof. intros Hl He. unfold event_at, body. now rewrite Hl, He. Qed.

Lemma event_at_hex lines k l :
  nth_error lines k = Some l -> hex_re_match l = true -> event_at lines k = [].
Proof.
  intros Hl Hh. apply (event_at_not_header _ _ _ Hl).
  destruct (event_re_match l) as [g|] eqn:E; [|reflexivity].
  apply event_not_hex in E. congruence.
Qed.

Lemma event_at_size lines k l :
  nth_error lines k = Some l -> size_re_match l = true -> event_at lines k = [].
Proof.
  intros Hl Hh. apply (event_at_not_header _ _ _ Hl).
  destruct (event_re_match l) as [g|] eqn:E; [|reflexivity].
  apply event_not_size in E. congruence.
Qed.

Lemma dump_start_bounds lines i :
  i < List.length lines ->
  S i <= dump_start lines i <= List.length lines.
Proof.
  intros Hi. unfold dump_start.
  destruct (nth_error lines (S i)) as [l|] eqn:E; [|lia].
  assert (S i < List.length lines) by (apply nth_error_Some; congruence).
  destruct (size_re_match l); lia.
Qed.

Lemma event_end_bounds lines i :
  i < List.length lines ->
  dump_start lines i <= event_end lines i <= List.length lines.
Proof.
  intros Hi. pose proof (dump_start_bounds lines i Hi) as Hd.
  unfold event_end, dump_lines.
  pose proof (hex_run_length (skipn (dump_start lines i) lines)) as Hr.
  rewrite length_skipn in Hr. lia.
Qed.

(** No line between a header and the end of its event is a header. *)
Lemma event_at_inside lines i k :
  i < k < event_end lines i -> event_at lines k = [].
Proof.
  intros Hk.
  destruct (Nat.lt_ge_cases k (dump_start lines i)) as [Hlt|Hge].
  - unfold dump_start in Hlt.
    destruct (nth_error lines (S i)) as [l|] eqn:E; [|lia].
    destruct (size_re_match l) eqn:Es; [|lia].
    assert (k = S i) as -> by lia.
    exact (event_at_size _ _ _ E Es).
  - destruct (hex_run_nth lines (dump_start lines i) k) as (l & Hl & Hh).
    { unfold event_end, dump_lines in Hk. lia. }
    exact (event_at_hex _ _ _ Hl Hh).
Qed.

(** The body never raises; what it appends does not depend on the
    records already there; the lines it steps over hold no header. *)
Lemma body_spec lines i l output :
  nth_error lines i = Some l ->
  exists i', body lines i l output = Some (i', output ++ event_at lines i) /\
             i < i' <= List.length lines /\
             forall k, i < k < i' -> event_at lines k = [].
Proof.
  intros Hl.
  assert (Hi : i < List.length lines) by (apply nth_error_Some; congruence).
  unfold event_at. rewrite Hl. unfold body.
  destruct (event_re_match l) as [g|].
  2: { exists (S i). rewrite app_nil_r. repeat split; try lia. }
  destruct (negb (wanted g)).
  { exists (S i). rewrite app_nil_r. repeat split; try lia. }
  rewrite !extract_spec. exists (event_end lines i).
  pose proof (dump_start_bounds lines i Hi).
  pose proof (event_end_bounds lines i Hi).
  repeat split; try lia.
  intros k Hk. now apply event_at_inside with (i := i).
Qed.

(** * The outer loop *)

Lemma events_from_end lines i :
  List.length lines <= i -> events_from lines i = [].
Proof.
  intros H. unfold events_from.
  replace (List.length lines - i) with 0 by lia. reflexivity.
Qed.

Lemma events_from_cons lines i :
  i < List.length lines ->
  events_from lines i = event_at lines i ++ events_from lines (S i).
Proof.
  intros H. unfold events_from.
  replace (List.length lines - i) with (S (List.length lines - S i)) by lia.
  reflexivity.
Qed.

Lemma events_from_skip lines i j :
  i <= j <= List.length lines ->
  (forall k, i <= k < j -> event_at lines k = []) ->
  events_from lines i = events_from lines j.
Proof.
  intros [Hij Hj]. induction Hij as [|j Hij IH]; intros Hk; [reflexivity|].
  rewrite IH by (try lia; intros k ?; apply Hk; lia).
  rewrite events_from_cons by lia.
  rewrite Hk by lia. reflexivity.
Qed.

Lemma firstn_cap_full {A} (out rest : list A) n :
  List.length out = n -> firstn n (out ++ rest) = out.
Proof.
  intros <-. rewrite firstn_app, Nat.sub_diag, firstn_all. simpl.
  apply app_nil_r.
Qed.

(** One turn appends at most one record. *)
Lemma event_at_length lines k : List.length (event_at lines k) <= 1.
Proof.
  unfold event_at, body.
  destruct (nth_error lines k) as [l|]; [|simpl; lia].
  destruct (event_re_match l) as [g|]; [|simpl; lia].
  destruct (negb (wanted g)); [simpl; lia|].
  rewrite extract_spec. simpl. lia.
Qed.

(** The outer loop returns, and its output is the old output followed by
    the events from the cursor on, cut at the cap. *)
Lemma scan_spec lines i output :
  List.length output <= cap ->
  exists j, scan lines i output =
            Some (j, firstn cap (output ++ events_from lines i)) /\
            i <= j.
Proof.
  funelim (scan lines i output); intros Hlen.
  - exists i. split; [|lia].
    rewrite events_from_end by (apply nth_error_None; assumption).
    rewrite app_nil_r, firstn_all2 by assumption. reflexivity.
  - exists i. split; [|lia].
    apply Nat.ltb_ge in Heq.
    rewrite firstn_cap_full by lia. reflexivity.
  - apply Nat.ltb_lt in Heq.
    destruct (body_spec lines i l output Hl) as (i'' & Hb' & Hi & Hin).
    rewrite Hb in Hb'. injection Hb' as -> ->.
    pose proof (event_at_length lines i) as H1'.
    assert (Hlen' : List.length (output ++ event_at lines i) <= cap)
      by (rewrite length_app; lia).
    destruct (H Hlen') as (j & Hj & Hle).
    exists j. split; [|lia].
    rewrite Hj, <- app_assoc. do 3 f_equal.
    rewrite (events_from_cons lines i) by lia. do 2 f_equal.
    symmetry. apply events_from_skip; [lia|]. intros k Hk. apply Hin. lia.
  - destruct (body_spec lines i l output Hl) as (i'' & Hb' & _).
    congruence.
Qed.

(** Once the cap is reached the loop leaves the cursor where it is. *)
Lemma scan_at_cap lines i output :
  cap <= List.length output -> scan lines i output = Some (i, output).
Proof.
  intros H. funelim (scan lines i output); try reflexivity.
  all: apply Nat.ltb_lt in Heq; lia.
Qed.

Lemma scan_total lines i output :
  exists j output', scan lines i output = Some (j, output').
Proof.
  destruct (Nat.le_gt_cases (List.length output) cap) as [H|H].
  - destruct (scan_spec lines i output H) as (j & E & _). eauto.
  - rewrite scan_at_cap by lia. eauto.
Qed.

(** * The order of the files *)

Lemma insert_path_perm p ps : Permutation (insert_path p ps) (p :: ps).
Proof.
  induction ps as [|q qs IH]; simpl; [reflexivity|].
  destruct (String.leb p q); [reflexivity|].
  rewrite IH. apply perm_swap.
Qed.

Lemma sorted_perm ps : Permutation (sorted ps) ps.
Proof.
  induction ps as [|p ps IH]; simpl; [reflexivity|].
  rewrite insert_path_perm. now constructor.
Qed.

Lemma insert_path_sorted p ps :
  Sorted path_le ps -> Sorted path_le (insert_path p ps).
Proof.
  induction 1 as [|q qs Hs IH Hd]; simpl.
  - repeat constructor.
  - destruct (String.leb p q) eqn:E.
    + constructor; [now constructor|]. constructor. exact E.
    + constructor; [exact IH|].
      assert (Hqp : path_le q p).
      { destruct (String.leb_total p q) as [H|H]; [congruence|exact H]. }
      destruct Hd as [|r rs Hr]; simpl.
      * now constructor.
      * destruct (String.leb p r); now constructor.
Qed.

(** [sorted] returns its argument in the order of the paths. *)
Lemma sorted_sorted ps : Sorted path_le (sorted ps).
Proof.
  induction ps as [|p ps IH]; simpl; [constructor|].
  now apply insert_path_sorted.
Qed.

Lemma sorted_In p ps : In p (sorted ps) <-> In p ps.
Proof.
  split; apply Permutation_in; [|symmetry]; apply sorted_perm.
Qed.

(** * The loop over the files *)

Lemma firstn_firstn_app {A} n (l r : list A) :
  firstn n (firstn n l ++ r) = firstn n (l ++ r).
Proof.
  destruct (Nat.le_gt_cases (List.length l) n) as [H|H].
  - now rewrite (firstn_all2 l) by exact H.
  - rewrite !firstn_app, length_firstn, firstn_firstn.
    replace (Nat.min n n) with n by lia.
    replace (n - Nat.min n (List.length l)) with 0 by lia.
    replace (n - List.length l) with 0 by lia.
    reflexivity.
Qed.

Lemma for_files_app fs pre post output read :
  for_files fs (pre ++ post) output read =
  match for_files fs pre output read with
  | (read', Dumped output') => for_files fs post output' read'
  | r => r
  end.
Proof.
  revert output read. induction pre as [|p pre IH]; intros output read.
  - reflexivity.
  - simpl. destruct (fs p) as [lines|]; [|reflexivity].
    destruct (scan lines 0 output) as [[i output']|]; [|reflexivity].
    apply IH.
Qed.

Lemma firstn_app_length_ge {A} n (l r : list A) :
  n <= List.length (l ++ r) -> n <= List.length (firstn n l ++ r).
Proof.
  rewrite !length_app, length_firstn. lia.
Qed.

(** When every file can be opened, every file is opened and read, and
    the output is made of the events of the files, in the order of the
    list, cut at the cap.  The files met when the cap is already reached
    leave the cursor at their first line. *)
Lemma for_files_readable fs paths output read :
  List.length output <= cap ->
  Forall (fun p => fs p <> None) paths ->
  exists cursors,
    for_files fs paths output read =
      (read ++ combine paths cursors,
       Dumped (firstn cap (output ++ flat_map (file_events fs) paths))) /\
    List.length cursors = List.length paths /\
    forall pre post,
      paths = pre ++ post ->
      cap <= List.length (output ++ flat_map (file_events fs) pre) ->
      Forall (fun c => c = 0) (skipn (List.length pre) cursors).
Proof.
  intros Hlen Hall. revert output read Hlen.
  induction Hall as [|p paths Hp _ IH]; intros output read Hlen.
  - exists []. cbn [for_files combine flat_map].
    rewrite !app_nil_r, firstn_all2 by exact Hlen.
    repeat split. intros pre post _ _. rewrite skipn_nil. constructor.
  - cbn [for_files flat_map]. unfold file_events at 1.
    destruct (fs p) as [lines|] eqn:Ep; [|congruence].
    destruct (scan_spec lines 0 output Hlen) as (j & Ej & _).
    fold (events lines) in Ej. rewrite Ej.
    destruct (IH (firstn cap (output ++ events lines)) (read ++ [(p, j)]))
      as (cursors & E & Hc & Hz).
    { rewrite length_firstn. lia. }
    exists (j :: cursors). rewrite E. cbn [combine List.length].
    rewrite <- app_assoc, firstn_firstn_app, <- app_assoc. cbn [app].
    repeat split; [lia|]. intros pre post Hsplit Hcap.
    destruct pre as [|q pre].
    + cbn [List.length skipn flat_map] in *. rewrite app_nil_r in Hcap.
      rewrite scan_at_cap in Ej by exact Hcap.
      assert (Ec : j = 0 /\ firstn cap (output ++ events lines) = output)
        by (split; congruence).
      destruct Ec as [-> Eo].
      constructor; [reflexivity|].
      apply (Hz [] paths eq_refl). cbn [flat_map].
      rewrite app_nil_r, Eo. exact Hcap.
    + cbn [app] in Hsplit. injection Hsplit as <- ->.
      cbn [List.length skipn]. apply (Hz pre post eq_refl).
      apply firstn_app_length_ge. rewrite <- app_assoc.
      cbn [flat_map] in Hcap. unfold file_events at 1 in Hcap.
      now rewrite Ep in Hcap.
Qed.

(** A file that cannot be opened ends the run with [IOError], wherever
    it stands in the list and whatever the output holds by then. *)
Lemma for_files_unreadable fs paths output read :
  Exists (fun p => fs p = None) paths ->
  exists read' p, for_files fs paths output read = (read', IOError p) /\
                  In p paths /\ fs p = None.
Proof.
  intros Hex. revert output read.
  induction paths as [|q paths IH]; intros output read.
  - inversion Hex.
  - simpl. destruct (fs q) as [lines|] eqn:Eq.
    + assert (Hex' : Exists (fun p => fs p = None) paths).
      { inversion Hex as [? ? H|]; [congruence|assumption]. }
      destruct (scan_total lines 0 output) as (j & output' & ->).
      destruct (IH Hex' output' (read ++ [(q, j)])) as (read' & p & E & Hin & Hp).
      exists read', p. auto.
    + exists read, q. auto.
Qed.

(** * Headers and their records *)

Lemma wanted_true_iff g :
  wanted g = true <->
  g_direction g = "recv" /\ g_proto g = "udp" /\ g_tag g = "2".
Proof.
  unfold wanted. rewrite !andb_true_iff, !String.eqb_eq. tauto.
Qed.

Lemma body_wanted lines i l g output :
  event_re_match l = Some g -> wanted g = true ->
  body lines i l output =
  Some (event_end lines i,
        output ++ [mk_record (g_ts g) (b64encode (event_bytes lines i))]).
Proof.
  intros Hg Hw. unfold body. rewrite Hg, Hw. apply extract_spec.
Qed.

Lemma body_unwanted lines i l g output :
  event_re_match l = Some g -> wanted g = false ->
  body lines i l output = Some (S i, output).
Proof. intros Hg Hw. unfold body. now rewrite Hg, Hw. Qed.

Lemma event_at_wanted lines k l g :
  nth_error lines k = Some l -> event_re_match l = Some g ->
  wanted g = true ->
  event_at lines k = [mk_record (g_ts g) (b64encode (event_bytes lines k))].
Proof.
  intros Hl Hg Hw. unfold event_at.
  now rewrite Hl, (body_wanted _ _ _ _ _ Hg Hw).
Qed.

Lemma event_at_In lines k r :
  In r (event_at lines k) ->
  exists l g, nth_error lines k = Some l /\ event_re_match l = Some g /\
              wanted g = true /\
              event_at lines k = [r] /\ timestamp r = g_ts g.
Proof.
  intros Hin.
  destruct (nth_error lines k) as [l|] eqn:Hl.
  2: { unfold event_at in Hin. rewrite Hl in Hin. destruct Hin. }
  destruct (event_re_match l) as [g|] eqn:Hg.
  2: { rewrite (event_at_not_header _ _ _ Hl Hg) in Hin. destruct Hin. }
  destruct (wanted g) eqn:Hw.
  - rewrite (event_at_wanted _ _ _ _ Hl Hg Hw) in *.
    destruct Hin as [<-|[]]. exists l, g. auto.
  - unfold event_at in Hin.
    rewrite Hl, (body_unwanted _ _ _ _ _ Hg Hw) in Hin. destruct Hin.
Qed.

(** [C9] The test on the tag compares strings: a header whose tag is
    written in any way other than the one character [2] is stepped over,
    the cursor moves on by one line and nothing is appended. *)
Theorem tag_filter_exact lines i l g output :
  event_re_match l = Some g ->
  g_tag g <> "2" ->
  body lines i l output = Some (S i, output).
Proof.
  intros Hg Htag. apply (body_unwanted _ _ _ _ _ Hg).
  destruct (wanted g) eqn:Hw; [|reflexivity].
  apply wanted_true_iff in Hw. tauto.
Qed.

(** * Hex-dump lines *)

Lemma chars_all cls n s t r :
  chars n cls s = Some (t, r) -> string_forallb cls t = true.
Proof.
  revert s t r. induction n as [|n IH]; intros s t r; simpl.
  - now intros [= <- <-].
  - destruct s as [|b s']; [discriminate|].
    destruct (cls b) eqn:Eb; [|discriminate].
    destruct (chars n cls s') as [[t' r']|] eqn:E; [|discriminate].
    intros [= <- <-]. simpl. rewrite Eb. exact (IH _ _ _ E).
Qed.

Lemma chars_complete cls pre suf :
  string_forallb cls pre = true ->
  chars (String.length pre) cls (pre ++ suf)%string = Some (pre, suf).
Proof.
  induction pre as [|c pre IH]; simpl; [reflexivity|].
  intros H. apply andb_true_iff in H as [-> H]. now rewrite IH.
Qed.

(** [hex_re] matches the lines that start with eight characters of
    [[0-9a-f]], and no others. *)
Lemma hex_re_match_iff l : hex_re_match l = true <-> begins_with 8 is_hex l.
Proof.
  unfold hex_re_match. split.
  - destruct (chars 8 is_hex l) as [[t r]|] eqn:E; [intros _|discriminate].
    exists t, r. pose proof (chars_all _ _ _ _ _ E).
    apply chars_inv in E as [-> Hlen]. auto.
  - intros (pre & suf & -> & Hlen & Hall).
    rewrite <- Hlen, chars_complete by exact Hall. reflexivity.
Qed.

Lemma hex_run_split ls :
  exists rest, ls = hex_run ls ++ rest /\
               forall l rest', rest = l :: rest' -> hex_re_match l = false.
Proof.
  induction ls as [|l ls (rest & IH & Hrest)]; simpl.
  - exists []. split; [reflexivity|discriminate].
  - destruct (hex_re_match l) eqn:E.
    + exists rest. split; [simpl; now rewrite <- IH|exact Hrest].
    + exists (l :: ls). split; [reflexivity|]. now intros ? ? [= <- <-].
Qed.

(** [C3], as stated, fails: the line [DEADBEEF  de ad] starts with eight
    hexadecimal digits, in upper case; after a qualifying header the
    inner loop stops in front of it and the record is empty. *)
Lemma hex_lines_any_case_fails : ~ hex_lines_any_case.
Proof.
  intros H.
  destruct (H ["2025/07/14 09:15:02 recv udp tag 2 len 2"; "DEADBEEF  de ad"]
              0 "2025/07/14 09:15:02 recv udp tag 2 len 2"
              (Groups "2025/07/14 09:15:02" "recv" "udp" "2" "2")
              "DEADBEEF  de ad" [] eq_refl eq_refl eq_refl eq_refl)
    as (j & output' & E & Hj).
  - exists "DEADBEEF", "  de ad". repeat split.
  - vm_compute in E. injection E as <- _. lia.
Qed.

(** [C3], amended: the inner loop reads the longest run of lines, from
    the cursor on, that start with eight characters of [[0-9a-f]] (lower
    case), appends the bytes of each of them in order, and stops in front
    of the first line that does not start so, or at the end of the file. *)
Theorem hex_dump_consumption lines i acc :
  exists run rest,
    skipn i lines = run ++ rest /\
    Forall (begins_with 8 is_hex) run /\
    (forall l rest', rest = l :: rest' -> ~ begins_with 8 is_hex l) /\
    hex_loop lines i acc =
      Some (i + List.length run, acc ++ flat_map line_bytes run).
Proof.
  destruct (hex_run_split (skipn i lines)) as (rest & Hsplit & Hrest).
  exists (hex_run (skipn i lines)), rest. repeat split.
  - exact Hsplit.
  - eapply Forall_impl; [|apply hex_run_all].
    intros l Hl. now apply hex_re_match_iff.
  - intros l rest' -> Hb. apply hex_re_match_iff in Hb.
    rewrite (Hrest _ _ eq_refl) in Hb. discriminate.
  - apply hex_loop_spec.
Qed.

(** * The size line and the payload *)

(** [C7] After a qualifying header that is followed by a size line, the
    inner loop starts at the line behind the size line: the record holds
    the bytes of the hex-dump lines found from there on and nothing else;
    the size line is not given to [hex_re], which would not match it
    either. *)
Theorem size_line_skip lines i l g s output :
  nth_error lines i = Some l ->
  event_re_match l = Some g -> wanted g = true ->
  nth_error lines (S i) = Some s ->
  size_re_match s = true ->
  let run := hex_run (skipn (S (S i)) lines) in
  hex_loop lines (S (S i)) [] =
    Some (S (S i) + List.length run, flat_map line_bytes run) /\
  body lines i l output =
    Some (S (S i) + List.length run,
          output ++ [mk_record (g_ts g) (b64encode (flat_map line_bytes run))]) /\
  hex_re_match s = false.
Proof.
  intros Hl Hg Hw Hs Hsz run. repeat split.
  - apply hex_loop_spec.
  - rewrite (body_wanted _ _ _ _ _ Hg Hw).
    unfold event_end, event_bytes, dump_lines, dump_start.
    rewrite Hs, Hsz. reflexivity.
  - now apply size_not_hex.
Qed.

(** [C6], as stated, fails: a size line is no hex-dump line, and the
    dump behind it fills the record. *)
Lemma empty_after_any_non_hex_line_fails : ~ empty_after_any_non_hex_line.
Proof.
  intros H.
  destruct (H ["2025/07/14 09:15:02 recv udp tag 2 len 2";
               "2025/07/14 09:15:02 recv 2 bytes";
               "00000000  ab cd"]
              0 "2025/07/14 09:15:02 recv udp tag 2 len 2"
              (Groups "2025/07/14 09:15:02" "recv" "udp" "2" "2")
              "2025/07/14 09:15:02 recv 2 bytes" []
              eq_refl eq_refl eq_refl eq_refl eq_refl) as (j & E).
  vm_compute in E. discriminate E.
Qed.

Lemma hex_run_nil_at lines j :
  match nth_error lines j with
  | Some l' => hex_re_match l' = false
  | None => True
  end ->
  hex_run (skipn j lines) = [].
Proof.
  destruct (nth_error lines j) as [l'|] eqn:E; intros H.
  - rewrite (skipn_nth_error_Some _ _ _ E). simpl. now rewrite H.
  - now rewrite (skipn_nth_error_None _ _ E).
Qed.

(** [C6], amended: a qualifying header with no hex dump behind it gives a
    record whose data is the encoding of no bytes, the empty string. *)
Theorem empty_payload lines i l g output :
  nth_error lines i = Some l ->
  event_re_match l = Some g -> wanted g = true ->
  no_dump_behind lines i ->
  event_bytes lines i = [] /\
  exists j, body lines i l output =
            Some (j, output ++ [mk_record (g_ts g) EmptyString]).
Proof.
  intros Hl Hg Hw Hno.
  assert (Hb : event_bytes lines i = []).
  { unfold event_bytes, dump_lines, dump_start.
    destruct Hno as [E|[(l' & E & Hs & Hh)|(s & E & Hs & Hh)]];
      rewrite E; try rewrite Hs; rewrite hex_run_nil_at; try reflexivity.
    - rewrite E. exact I.
    - rewrite E. exact Hh.
    - exact Hh. }
  split; [exact Hb|].
  rewrite (body_wanted _ _ _ _ _ Hg Hw), Hb. eauto.
Qed.

(** * The bytes [de ad be ef] *)

(** [C2], as stated, fails: the hex-dump line [00000000  de ad be ef]
    holds the four tokens, and it decodes to eight bytes, the four of
    its first eight digits and the four of the tokens. *)
Lemma deadbeef_anywhere_fails : ~ deadbeef_anywhere.
Proof.
  intros H.
  destruct (H ["2025/07/14 09:15:02 recv udp tag 2 len 4";
               "00000000  de ad be ef"]
              0 "2025/07/14 09:15:02 recv udp tag 2 len 4"
              (Groups "2025/07/14 09:15:02" "recv" "udp" "2" "4")
              "00000000  de ad be ef" []
              eq_refl eq_refl eq_refl eq_refl eq_refl) as [E _].
  - left. vm_compute. discriminate.
  - vm_compute in E. discriminate E.
Qed.

(** [C2], amended: when the hex dump behind a qualifying header, which
    starts at the line after the header or, when that line is a size
    line, at the line after the size line, is the one line that starts
    with [deadbeef] and holds no further pair of hexadecimal digits, the
    accumulator is the four bytes [0xDE 0xAD 0xBE 0xEF] and the data of
    the record is [3q2+7w==]. *)
Theorem deadbeef_decode lines i l g j tail output :
  nth_error lines i = Some l ->
  event_re_match l = Some g -> wanted g = true ->
  (j = S i \/
   (j = S (S i) /\
    exists s, nth_error lines (S i) = Some s /\ size_re_match s = true)) ->
  nth_error lines j = Some ("deadbeef" ++ tail)%string ->
  byte_re_findall tail = [] ->
  match nth_error lines (S j) with
  | Some l' => hex_re_match l' = false
  | None => True
  end ->
  event_bytes lines i = [222; 173; 190; 239]%Z /\
  body lines i l output =
    Some (S j, output ++ [mk_record (g_ts g) "3q2+7w=="]).
Proof.
  intros Hl Hg Hw Hj Hh Htail Hnext.
  assert (Hnot_size : size_re_match ("deadbeef" ++ tail) = false).
  { destruct (size_re_match ("deadbeef" ++ tail)) eqn:E; [|reflexivity].
    apply size_not_hex in E. discriminate E. }
  assert (Hstart : dump_start lines i = j).
  { unfold dump_start. destruct Hj as [-> | [-> (s & Hs & Hsz)]].
    - now rewrite Hh, Hnot_size.
    - now rewrite Hs, Hsz. }
  assert (Hrun : dump_lines lines i = ["deadbeef" ++ tail]%string).
  { unfold dump_lines. rewrite Hstart, (skipn_nth_error_Some _ _ _ Hh).
    cbn [hex_run]. replace (hex_re_match ("deadbeef" ++ tail)) with true
      by reflexivity.
    now rewrite hex_run_nil_at. }
  assert (Hbytes : event_bytes lines i = [222; 173; 190; 239]%Z).
  { unfold event_bytes. rewrite Hrun. cbn [flat_map]. unfold line_bytes.
    change (byte_re_findall ("deadbeef" ++ tail)) with
      ("de" :: "ad" :: "be" :: "ef" :: byte_re_findall tail).
    rewrite Htail. reflexivity. }
  split; [exact Hbytes|].
  rewrite (body_wanted _ _ _ _ _ Hg Hw), Hbytes.
  unfold event_end. rewrite Hstart, Hrun. cbn [List.length].
  do 2 f_equal. lia.
Qed.

(** * The example of the specification *)

(** [C1], as stated, fails: the data of the record is not [q80=]. *)
Lemma example_gives_q80_fails : ~ example_gives_q80.
Proof.
  intros (read & ts & E). vm_compute in E. discriminate E.
Qed.

(** The pairs of the first eight characters of a hex-dump line are read
    like all the others. *)
Lemma hex_line_prefix_bytes l :
  hex_re_match l = true ->
  exists pre suf,
    l = (pre ++ suf)%string /\ String.length pre = 8 /\
    line_bytes l = line_bytes pre ++ line_bytes suf /\
    List.length (line_bytes pre) = 4.
Proof.
  intros H. apply hex_re_match_iff in H as (pre & suf & -> & Hlen & Hall).
  exists pre, suf.
  destruct pre as [|c0 [|c1 [|c2 [|c3 [|c4 [|c5 [|c6 [|c7 [|c8 pre]]]]]]]]];
    try discriminate Hlen.
  cbn [string_forallb] in Hall.
  repeat (apply andb_true_iff in Hall as [? Hall]).
  unfold line_bytes. cbn [String.append byte_re_findall].
  repeat match goal with E : is_hex _ = true |- _ => rewrite E; clear E end.
  cbn [andb map List.length app]. auto.
Qed.

(** [C1], amended: on the example the output is one record with the
    timestamp of the qualifying header, and its data is [AAAAAKvN], the
    encoding of the six bytes [00 00 00 00 AB CD]: the scan for pairs
    runs over the whole hex-dump line, the eight digits of its offset
    included. *)
Theorem example_scenario_output :
  main example_fs ["go_client/debug-1.log"] =
    ([("go_client/debug-1.log", 4)],
     Dumped [mk_record "2025/07/14 09:15:02" "AAAAAKvN"]) /\
  byte_re_findall (ln "00000000  ab cd") =
    ["00"; "00"; "00"; "00"; "ab"; "cd"] /\
  event_bytes debug_1_log 1 = [0; 0; 0; 0; 171; 205]%Z /\
  b64encode [0; 0; 0; 0; 171; 205]%Z = "AAAAAKvN" /\
  (forall l, hex_re_match l = true ->
     exists pre suf,
       l = (pre ++ suf)%string /\ String.length pre = 8 /\
       line_bytes l = line_bytes pre ++ line_bytes suf /\
       List.length (line_bytes pre) = 4).
Proof.
  repeat split; try (vm_compute; reflexivity).
  apply hex_line_prefix_bytes.
Qed.

(** * The whole run *)

Lemma sorted_readable (fs : file_system) globbed :
  (forall p, In p globbed -> fs p <> None) ->
  Forall (fun p => fs p <> None) (sorted globbed).
Proof.
  intros H. apply Forall_forall. intros p Hp. now apply H, sorted_In.
Qed.

Lemma for_files_dumped (fs : file_system) paths output read read' output' :
  for_files fs paths output read = (read', Dumped output') ->
  Forall (fun p => fs p <> None) paths.
Proof.
  revert output read. induction paths as [|p paths IH]; intros output read.
  - constructor.
  - cbn [for_files]. destruct (fs p) as [lines|] eqn:Ep; [|discriminate].
    destruct (scan lines 0 output) as [[j o]|]; [|discriminate].
    intros H. constructor; [congruence|exact (IH _ _ H)].
Qed.

Lemma In_firstn {A} n (l : list A) x : In x (firstn n l) -> In x l.
Proof.
  intros H. rewrite <- (firstn_skipn n l). apply in_or_app. now left.
Qed.

Lemma firstn_app_full {A} n (l r : list A) :
  n <= List.length l -> firstn n (l ++ r) = firstn n l.
Proof.
  intros H. rewrite firstn_app.
  replace (n - List.length l) with 0 by lia. apply app_nil_r.
Qed.

Lemma map_flat_map {A B C} (f : B -> C) (g : A -> list B) l :
  map f (flat_map g l) = flat_map (fun x => map f (g x)) l.
Proof.
  induction l as [|x l IH]; simpl; [reflexivity|].
  now rewrite map_app, IH.
Qed.

Lemma flat_map_indices {A B} (F : option A -> list B) (l pre : list A) :
  flat_map (fun k => F (nth_error (pre ++ l) k))
           (List.seq (List.length pre) (List.length l)) =
  flat_map (fun x => F (Some x)) l.
Proof.
  revert pre. induction l as [|x l IH]; intros pre; [reflexivity|].
  cbn [List.length List.seq flat_map].
  rewrite nth_error_app2, Nat.sub_diag by lia. cbn [nth_error]. f_equal.
  specialize (IH (pre ++ [x])).
  rewrite <- app_assoc, length_app, Nat.add_comm in IH. exact IH.
Qed.

Lemma event_at_timestamps lines k :
  map timestamp (event_at lines k) =
  match nth_error lines k with
  | Some l => header_timestamp l
  | None => []
  end.
Proof.
  unfold header_timestamp.
  destruct (nth_error lines k) as [l|] eqn:Hl.
  2: { unfold event_at. now rewrite Hl. }
  destruct (event_re_match l) as [g|] eqn:Hg.
  2: { now rewrite (event_at_not_header _ _ _ Hl Hg). }
  destruct (wanted g) eqn:Hw.
  - now rewrite (event_at_wanted _ _ _ _ Hl Hg Hw).
  - unfold event_at. now rewrite Hl, (body_unwanted _ _ _ _ _ Hg Hw).
Qed.

(** The events of a file are those of its qualifying headers, one for
    each, in the order of the lines. *)
Lemma events_timestamps lines :
  map timestamp (events lines) = flat_map header_timestamp lines.
Proof.
  unfold events, events_from. rewrite Nat.sub_0_r, map_flat_map.
  set (F := fun o : option string =>
              match o with
              | Some l => header_timestamp l
              | None => []
              end).
  transitivity (flat_map (fun k => F (nth_error ([] ++ lines) k))
                         (List.seq (List.length (@nil string))
                                   (List.length lines))).
  - apply flat_map_ext. intros k. apply event_at_timestamps.
  - exact (flat_map_indices F lines []).
Qed.

Lemma file_events_timestamps (fs : file_system) paths :
  map timestamp (flat_map (file_events fs) paths) =
  flat_map (file_timestamps fs) paths.
Proof.
  rewrite map_flat_map. apply flat_map_ext. intros p.
  unfold file_events, file_timestamps.
  destruct (fs p); [apply events_timestamps|reflexivity].
Qed.

(** [C4] When all the globbed files can be opened and hold more than
    three qualifying events, the output holds exactly three records: the
    first three events, the files taken in the order of their paths and
    the events of a file in the order of its lines, so that the
    timestamps of the output are those of the first three qualifying
    headers.  From the moment the cap is reached no turn of the loop
    runs: the cursor stays where it is, and stays at the first line in
    every later file. *)
Theorem cap_enforcement (fs : file_system) (globbed : list string) :
  (forall p, In p globbed -> fs p <> None) ->
  let files := sorted globbed in
  let all := flat_map (file_events fs) files in
  cap < List.length all ->
  Sorted path_le files /\ Permutation files globbed /\
  (exists cursors,
     main fs globbed = (combine files cursors, Dumped (firstn cap all)) /\
     List.length cursors = List.length files /\
     forall pre post,
       files = pre ++ post ->
       cap <= List.length (flat_map (file_events fs) pre) ->
       Forall (fun c => c = 0) (skipn (List.length pre) cursors)) /\
  List.length (firstn cap all) = 3 /\
  map timestamp (firstn cap all) =
    firstn cap (flat_map (file_timestamps fs) files) /\
  (forall lines i output,
     cap <= List.length output -> scan lines i output = Some (i, output)).
Proof.
  intros Hread files all Hmore.
  split; [apply sorted_sorted|]. split; [apply sorted_perm|].
  split; [|split; [|split]].
  - destruct (for_files_readable fs files [] [])
      as (cursors & E & Hc & Hz).
    { unfold cap. simpl. lia. }
    { now apply sorted_readable. }
    exists cursors. repeat split; assumption.
  - rewrite length_firstn. unfold cap in *. lia.
  - rewrite <- firstn_map. f_equal. apply file_events_timestamps.
  - intros lines i output. apply scan_at_cap.
Qed.

(** [C5] Every record of the output comes from a line that [event_re]
    matches with the direction [recv], the protocol [udp] and the tag
    [2]: it is the record that the loop body appends for that line, with
    the timestamp of that line.  What follows a header that fails the
    test is never the source of a record. *)
Theorem filter_correctness (fs : file_system) globbed read output r :
  main fs globbed = (read, Dumped output) ->
  In r output ->
  exists p lines k l g,
    In p globbed /\ fs p = Some lines /\
    nth_error lines k = Some l /\ event_re_match l = Some g /\
    g_direction g = "recv" /\ g_proto g = "udp" /\ g_tag g = "2" /\
    timestamp r = g_ts g /\
    body lines k l [] = Some (event_end lines k, [r]).
Proof.
  unfold main. intros Hmain Hin.
  pose proof (for_files_dumped _ _ _ _ _ _ Hmain) as Hall.
  destruct (for_files_readable fs (sorted globbed) [] [])
    as (cursors & E & _); [unfold cap; simpl; lia|exact Hall|].
  rewrite E in Hmain. cbn [app] in Hmain.
  assert (Eo : output = firstn cap (flat_map (file_events fs) (sorted globbed)))
    by congruence.
  rewrite Eo in Hin. apply In_firstn in Hin.
  apply in_flat_map in Hin as (p & Hp & Hin).
  unfold file_events in Hin.
  destruct (fs p) as [lines|] eqn:Ep; [|destruct Hin].
  apply in_flat_map in Hin as (k & _ & Hin).
  apply event_at_In in Hin as (l & g & Hl & Hg & Hw & Hr & Hts).
  exists p, lines, k, l, g.
  pose proof (proj1 (wanted_true_iff g) Hw) as (Hd & Hpr & Htag).
  repeat split; try assumption.
  - now apply sorted_In.
  - rewrite (body_wanted _ _ _ _ _ Hg Hw). cbn [app].
    rewrite (event_at_wanted _ _ _ _ Hl Hg Hw) in Hr. congruence.
Qed.

(** * Files that cannot be opened *)

Lemma flat_map_nil {A B} (f : A -> list B) l :
  (forall x, In x l -> f x = []) -> flat_map f l = [].
Proof.
  induction l as [|x l IH]; intros H; simpl; [reflexivity|].
  rewrite H by now left. apply IH. intros y Hy. apply H. now right.
Qed.

Lemma no_qualifying_header_events lines :
  no_qualifying_header lines -> events lines = [].
Proof.
  intros H. apply flat_map_nil. intros k _. unfold event_at.
  destruct (nth_error lines k) as [l|] eqn:Hl; [|reflexivity].
  destruct (event_re_match l) as [g|] eqn:Hg.
  - now rewrite (body_unwanted _ _ _ _ _ Hg (H l g (nth_error_In _ _ Hl) Hg)).
  - unfold body. now rewrite Hg.
Qed.

(** [C8] A globbed file that cannot be opened ends the run with the
    [IOError] of [open]; a file that opens and holds no qualifying header
    is passed without an error and leaves the output as it was. *)
Theorem unreadable_file_aborts (fs : file_system) (globbed : list string) :
  ((exists p, In p globbed /\ fs p = None) ->
   exists read p,
     main fs globbed = (read, IOError p) /\ In p globbed /\ fs p = None) /\
  (forall p lines paths output read,
     fs p = Some lines ->
     no_qualifying_header lines ->
     exists j,
       for_files fs (p :: paths) output read =
       for_files fs paths output (read ++ [(p, j)])).
Proof.
  split.
  - intros (p & Hp & Ep).
    destruct (for_files_unreadable fs (sorted globbed) [] [])
      as (read & q & E & Hq & Eq).
    { apply Exists_exists. exists p. split; [now apply sorted_In|exact Ep]. }
    exists read, q. repeat split; try assumption. now apply sorted_In.
  - intros p lines paths output read Ep Hno.
    cbn [for_files]. rewrite Ep.
    destruct (Nat.le_gt_cases (List.length output) cap) as [H|H].
    + destruct (scan_spec lines 0 output H) as (j & -> & _).
      fold (events lines). rewrite (no_qualifying_header_events _ Hno).
      rewrite app_nil_r, firstn_all2 by exact H. now exists j.
    + rewrite scan_at_cap by lia. now exists 0.
Qed.

Lemma for_files_at_cap (fs : file_system) paths output read :
  cap <= List.length output ->
  for_files fs paths output read =
  (read ++ map (fun q => (q, 0)) (readable_prefix fs paths),
   match find (unreadable fs) paths with
   | Some p => IOError p
   | None => Dumped output
   end).
Proof.
  intros Hcap. revert read. induction paths as [|p paths IH]; intros read.
  - cbn. now rewrite app_nil_r.
  - cbn [for_files readable_prefix find].
    assert (Hu : unreadable fs p =
                 match fs p with None => true | Some _ => false end)
      by reflexivity.
    rewrite Hu. destruct (fs p) as [lines|].
    + rewrite scan_at_cap by exact Hcap. rewrite IH, <- app_assoc.
      reflexivity.
    + cbn. now rewrite app_nil_r.
Qed.

(** [C10] Reaching the cap stops the scan, not the loop over the files:
    when the files [pre] already hold three qualifying events, every
    later file is still opened and read, one after the other, with its
    cursor left at the first line; the first of them that cannot be
    opened ends the run with [IOError], and when all of them can be
    opened the output is made of events of [pre] only. *)
Theorem reads_go_on_after_cap (fs : file_system) globbed pre post :
  sorted globbed = pre ++ post ->
  Forall (fun p => fs p <> None) pre ->
  cap <= List.length (flat_map (file_events fs) pre) ->
  exists cursors,
    List.length cursors = List.length pre /\
    main fs globbed =
      (combine pre cursors ++ map (fun q => (q, 0)) (readable_prefix fs post),
       match find (unreadable fs) post with
       | Some p => IOError p
       | None => Dumped (firstn cap (flat_map (file_events fs) pre))
       end).
Proof.
  intros Hsplit Hpre Hcap. unfold main. rewrite Hsplit, for_files_app.
  destruct (for_files_readable fs pre [] [])
    as (cursors & E & Hc & _); [unfold cap; simpl; lia|exact Hpre|].
  rewrite E. cbn [app]. exists cursors. split; [exact Hc|].
  apply for_files_at_cap. rewrite length_firstn. lia.
Qed.

(** * Concrete runs *)

(** The header with the tag [02] is stepped over. *)
Lemma tag_filter_exact_witness :
  event_re_match header_02 =
    Some (Groups "2025/07/14 09:18:02" "recv" "udp" "02" "2") /\
  body [header_02; "00000000  ab cd"] 0 header_02 [] = Some (1, []).
Proof.
  split; [reflexivity|].
  apply (tag_filter_exact _ 0 header_02
           (Groups "2025/07/14 09:18:02" "recv" "udp" "02" "2") []).
  - reflexivity.
  - discriminate.
Defined.

(** The dump [deadbeef] behind a qualifying header, directly and behind
    a size line. *)
Lemma deadbeef_decode_witness :
  (event_bytes [header_2; ln "deadbeef"; header_02] 0 =
     [222; 173; 190; 239]%Z /\
   body [header_2; ln "deadbeef"; header_02] 0 header_2 [] =
     Some (2, [mk_record "2025/07/14 09:15:02" "3q2+7w=="])) /\
  (event_bytes
     [header_2; ln "2025/07/14 09:15:02 recv 4 bytes"; ln "deadbeef"] 0 =
     [222; 173; 190; 239]%Z /\
   body [header_2; ln "2025/07/14 09:15:02 recv 4 bytes"; ln "deadbeef"]
        0 header_2 [] =
     Some (3, [mk_record "2025/07/14 09:15:02" "3q2+7w=="])).
Proof.
  split.
  - apply (deadbeef_decode [header_2; ln "deadbeef"; header_02] 0 header_2
             groups_2 1 (String "010"%char EmptyString) []).
    + reflexivity.
    + reflexivity.
    + reflexivity.
    + left. reflexivity.
    + reflexivity.
    + reflexivity.
    + reflexivity.
  - apply (deadbeef_decode
             [header_2; ln "2025/07/14 09:15:02 recv 4 bytes"; ln "deadbeef"]
             0 header_2 groups_2 2 (String "010"%char EmptyString) []).
    + reflexivity.
    + reflexivity.
    + reflexivity.
    + right. split; [reflexivity|].
      exists (ln "2025/07/14 09:15:02 recv 4 bytes").
      split; reflexivity.
    + reflexivity.
    + reflexivity.
    + exact I.
Defined.

(** A header, a size line and no dump. *)
Lemma empty_payload_witness :
  no_dump_behind [header_2; "2025/07/14 09:15:02 recv 2 bytes"; header_02] 0 /\
  event_bytes [header_2; "2025/07/14 09:15:02 recv 2 bytes"; header_02] 0 = [] /\
  exists j,
    body [header_2; "2025/07/14 09:15:02 recv 2 bytes"; header_02] 0
         header_2 [] =
    Some (j, [mk_record "2025/07/14 09:15:02" EmptyString]).
Proof.
  assert (H : no_dump_behind
                [header_2; "2025/07/14 09:15:02 recv 2 bytes"; header_02] 0).
  { right. right. exists "2025/07/14 09:15:02 recv 2 bytes".
    repeat split. }
  split; [exact H|].
  exact (empty_payload
           [header_2; "2025/07/14 09:15:02 recv 2 bytes"; header_02]
           0 header_2 groups_2 [] eq_refl eq_refl eq_refl H).
Defined.

(** The qualifying header of the example and its size line. *)
Lemma size_line_skip_witness :
  size_re_match (ln "2025/07/14 09:15:02 recv 2 bytes") = true /\
  body debug_1_log 1 (ln header_2) [] =
    Some (4, [mk_record "2025/07/14 09:15:02"
                (b64encode (line_bytes (ln "00000000  ab cd")))]).
Proof.
  split; [reflexivity|].
  exact (proj1 (proj2
    (size_line_skip debug_1_log 1 (ln header_2) groups_2
       (ln "2025/07/14 09:15:02 recv 2 bytes") []
       eq_refl eq_refl eq_refl eq_refl eq_refl))).
Defined.

(** Both files of [logs_globbed] can be opened. *)
Lemma logs_globbed_readable :
  forall p, In p logs_globbed -> logs_fs p <> None.
Proof. intros p [<-|[<-|[]]]; discriminate. Defined.

(** Four qualifying events in two files. *)
Lemma cap_enforcement_witness :
  (forall p, In p logs_globbed -> logs_fs p <> None) /\
  cap < List.length (flat_map (file_events logs_fs) (sorted logs_globbed)) /\
  sorted logs_globbed = ["go_client/debug-1.log"; "go_client/debug-2.log"] /\
  exists cursors,
    main logs_fs logs_globbed =
      (combine (sorted logs_globbed) cursors,
       Dumped (firstn cap
                 (flat_map (file_events logs_fs) (sorted logs_globbed)))) /\
    List.length cursors = List.length (sorted logs_globbed) /\
    forall pre post,
      sorted logs_globbed = pre ++ post ->
      cap <= List.length (flat_map (file_events logs_fs) pre) ->
      Forall (fun c => c = 0) (skipn (List.length pre) cursors).
Proof.
  assert (Hmore : cap < List.length
                    (flat_map (file_events logs_fs) (sorted logs_globbed)))
    by (vm_compute; lia).
  split; [exact logs_globbed_readable|].
  split; [exact Hmore|].
  split; [reflexivity|].
  exact (proj1 (proj2 (proj2
    (cap_enforcement logs_fs logs_globbed logs_globbed_readable Hmore)))).
Defined.

(** The third record of the run over [logs_globbed]. *)
Lemma filter_correctness_witness :
  main logs_fs logs_globbed = (logs_read, Dumped logs_output) /\
  exists p lines k l g,
    In p logs_globbed /\ logs_fs p = Some lines /\
    nth_error lines k = Some l /\ event_re_match l = Some g /\
    g_direction g = "recv" /\ g_proto g = "udp" /\ g_tag g = "2" /\
    timestamp (mk_record "2025/07/14 09:16:02" EmptyString) = g_ts g /\
    body lines k l [] =
      Some (event_end lines k, [mk_record "2025/07/14 09:16:02" EmptyString]).
Proof.
  assert (Hrun : main logs_fs logs_globbed = (logs_read, Dumped logs_output))
    by (vm_compute; reflexivity).
  split; [exact Hrun|].
  apply (filter_correctness logs_fs logs_globbed logs_read logs_output
           (mk_record "2025/07/14 09:16:02" EmptyString) Hrun).
  right. right. left. reflexivity.
Defined.

(** A run with a missing file, and a file without a qualifying header. *)
Lemma unreadable_file_aborts_witness :
  (exists read p,
     main logs_fs globbed_with_missing = (read, IOError p) /\
     In p globbed_with_missing /\ logs_fs p = None) /\
  (exists j,
     for_files logs_fs ["go_client/debug-4.log"; "go_client/debug-1.log"] [] [] =
     for_files logs_fs ["go_client/debug-1.log"] []
       ([] ++ [("go_client/debug-4.log", j)])).
Proof.
  destruct (unreadable_file_aborts logs_fs globbed_with_missing) as [H1 H2].
  split.
  - apply H1. exists "go_client/debug-3.log". split; [now left|reflexivity].
  - apply (H2 "go_client/debug-4.log" debug_4_log); [reflexivity|].
    intros l g [<-|[<-|[<-|[]]]] Hg; vm_compute in Hg;
      first [discriminate Hg | injection Hg as <-; reflexivity].
Defined.

(** The cap is reached in the first file; the second is read, the third
    cannot be opened. *)
Lemma reads_go_on_after_cap_witness :
  sorted globbed_with_missing =
    ["go_client/debug-0.log"] ++
    ["go_client/debug-1.log"; "go_client/debug-3.log"] /\
  cap <= List.length (flat_map (file_events logs_fs) ["go_client/debug-0.log"]) /\
  exists cursors,
    List.length cursors = 1 /\
    main logs_fs globbed_with_missing =
      (combine ["go_client/debug-0.log"] cursors ++
         [("go_client/debug-1.log", 0)],
       IOError "go_client/debug-3.log").
Proof.
  assert (Hcap : cap <= List.length
                   (flat_map (file_events logs_fs) ["go_client/debug-0.log"]))
    by (vm_compute; lia).
  split; [reflexivity|]. split; [exact Hcap|].
  apply (reads_go_on_after_cap logs_fs globbed_with_missing
           ["go_client/debug-0.log"]
           ["go_client/debug-1.log"; "go_client/debug-3.log"]).
  - reflexivity.
  - repeat constructor. discriminate.
  - exact Hcap.
Defined.


(** * Further properties of the run *)

(** The outcome of the loop over the files, whatever the files are: the
    first path that cannot be opened gives [IOError]; without one, the
    events of the files are dumped, cut at the cap. *)
Lemma for_files_outcome (fs : file_system) paths output read :
  List.length output <= cap ->
  snd (for_files fs paths output read) =
  match find (unreadable fs) paths with
  | Some p => IOError p
  | None => Dumped (firstn cap (output ++ flat_map (file_events fs) paths))
  end.
Proof.
  revert output read. induction paths as [|p paths IH]; intros output read Hlen.
  - cbn [for_files find flat_map snd].
    now rewrite app_nil_r, firstn_all2 by exact Hlen.
  - cbn [for_files find flat_map].
    assert (Hu : unreadable fs p =
                 match fs p with None => true | Some _ => false end)
      by reflexivity.
    rewrite Hu. unfold file_events at 1.
    destruct (fs p) as [lines|]; [|reflexivity].
    destruct (scan_spec lines 0 output Hlen) as (j & -> & _).
    fold (events lines). rewrite IH by (rewrite length_firstn; lia).
    destruct (find (unreadable fs) paths); [reflexivity|].
    now rewrite firstn_firstn_app, <- app_assoc.
Qed.

Lemma find_unreadable_none (fs : file_system) paths :
  find (unreadable fs) paths = None <-> Forall (fun p => fs p <> None) paths.
Proof.
  induction paths as [|p paths IH]; cbn [find].
  - split; [constructor|reflexivity].
  - unfold unreadable at 1. destruct (fs p) eqn:Ep.
    + rewrite IH. split; intros H.
      * constructor; [congruence|exact H].
      * now inversion H.
    + split; [discriminate|]. intros H. inversion H. congruence.
Qed.

(** A completed run, read backwards. *)
Lemma main_dumped_inv (fs : file_system) globbed read output :
  main fs globbed = (read, Dumped output) ->
  Forall (fun p => fs p <> None) (sorted globbed) /\
  output = firstn cap (flat_map (file_events fs) (sorted globbed)).
Proof.
  unfold main. intros Hmain.
  pose proof (for_files_dumped _ _ _ _ _ _ Hmain) as Hall.
  split; [exact Hall|].
  destruct (for_files_readable fs (sorted globbed) [] [])
    as (cursors & E & _); [unfold cap; simpl; lia|exact Hall|].
  rewrite E in Hmain. cbn [app] in Hmain. congruence.
Qed.

(** The loop in the environment goes the way of the loop of [main] over
    the inputs that can be read. *)
Lemma read_files_for_files env paths output read :
  read_files env paths output =
  match snd (for_files (lines_of env) paths output read) with
  | Dumped output' => inr output'
  | IOError p =>
      match env_inputs env p with
      | ReadRaises => inl (InputReadError p)
      | OpenRaises | Readable _ => inl (InputOpenError p)
      end
  | ValueError => inl DecodeError
  end.
Proof.
  revert output read. induction paths as [|p paths IH]; intros output read.
  - reflexivity.
  - cbn [read_files for_files]. unfold lines_of at 1.
    destruct (env_inputs env p) as [lines| |] eqn:Ep.
    + destruct (scan lines 0 output) as [[j output']|]; [|reflexivity].
      apply IH.
    + cbn [snd]. now rewrite Ep.
    + cbn [snd]. now rewrite Ep.
Qed.

Lemma find_unreadable_input env paths p :
  find (unreadable (lines_of env)) paths = Some p ->
  env_inputs env p = OpenRaises \/ env_inputs env p = ReadRaises.
Proof.
  intros H. apply find_some in H as [_ H].
  unfold unreadable, lines_of in H.
  destruct (env_inputs env p); [discriminate|auto|auto].
Qed.

Lemma script_spec env globbed :
  script env globbed =
  match find (unreadable (lines_of env)) (sorted globbed) with
  | Some p =>
      match env_inputs env p with
      | ReadRaises => Raised (InputReadError p)
      | OpenRaises | Readable _ => Raised (InputOpenError p)
      end
  | None =>
      match env_output env with
      | Writable =>
          Written (firstn cap
                     (flat_map (file_events (lines_of env)) (sorted globbed)))
      | OutputOpenRaises => Raised OutputOpenError
      | OutputWriteRaises => Raised OutputWriteError
      end
  end.
Proof.
  unfold script. rewrite (read_files_for_files env _ _ []).
  rewrite for_files_outcome by (unfold cap; simpl; lia).
  destruct (find (unreadable (lines_of env)) (sorted globbed)) as [p|].
  - destruct (env_inputs env p); reflexivity.
  - reflexivity.
Qed.

(** [X1] How the script ends.  The first path in sorted order whose
    [open] or [readlines] raises decides: the script ends with that
    exception and the output file is not touched.  When every input is
    read, the script ends with the exception of the output file if its
    [open] or the writing raises, and otherwise [json.dump] writes the
    first three qualifying events.  [int] and [bytearray.append] never
    raise. *)
Theorem script_outcome env globbed :
  script env globbed =
    match find (unreadable (lines_of env)) (sorted globbed) with
    | Some p =>
        match env_inputs env p with
        | ReadRaises => Raised (InputReadError p)
        | OpenRaises | Readable _ => Raised (InputOpenError p)
        end
    | None =>
        match env_output env with
        | Writable =>
            Written (firstn cap
                       (flat_map (file_events (lines_of env))
                                 (sorted globbed)))
        | OutputOpenRaises => Raised OutputOpenError
        | OutputWriteRaises => Raised OutputWriteError
        end
    end /\
  (forall p, find (unreadable (lines_of env)) (sorted globbed) = Some p ->
             In p globbed /\
             (env_inputs env p = OpenRaises \/
              env_inputs env p = ReadRaises)) /\
  script env globbed <> Raised DecodeError.
Proof.
  split; [apply script_spec|]. split.
  - intros p Hp. split; [|exact (find_unreadable_input _ _ _ Hp)].
    apply find_some in Hp as [Hin _]. now apply sorted_In.
  - rewrite script_spec.
    destruct (find (unreadable (lines_of env)) (sorted globbed)) as [p|].
    + destruct (env_inputs env p); discriminate.
    + destruct (env_output env); discriminate.
Qed.

(** [X2] The output file is written exactly when [open] and [readlines]
    succeed on every globbed file and [open] and the writing succeed on
    the output file. *)
Theorem written_iff env globbed :
  (exists output, script env globbed = Written output) <->
  (forall p, In p globbed -> exists lines, env_inputs env p = Readable lines)
  /\ env_output env = Writable.
Proof.
  rewrite script_spec. split.
  - intros [output H].
    destruct (find (unreadable (lines_of env)) (sorted globbed)) as [p|] eqn:E.
    { destruct (env_inputs env p); discriminate. }
    split; [|destruct (env_output env); [reflexivity|discriminate..]].
    intros p Hp.
    apply find_unreadable_none in E.
    pose proof (proj1 (Forall_forall _ _) E p (proj2 (sorted_In _ _) Hp)) as H'.
    unfold lines_of in H'.
    destruct (env_inputs env p) as [lines| |]; [eauto|congruence..].
  - intros [Hall Hout].
    assert (E : find (unreadable (lines_of env)) (sorted globbed) = None).
    { apply find_unreadable_none, Forall_forall. intros p Hp.
      destruct (Hall p (proj1 (sorted_In _ _) Hp)) as [lines El].
      unfold lines_of. now rewrite El. }
    rewrite E, Hout. eauto.
Qed.

(** [X3] The output of a completed run never holds more than three
    records. *)
Theorem output_capped (fs : file_system) globbed read output :
  main fs globbed = (read, Dumped output) ->
  List.length output <= 3.
Proof.
  intros Hmain. apply main_dumped_inv in Hmain as [_ ->].
  rewrite length_firstn. unfold cap. lia.
Qed.

(** [X4] In a completed run the timestamps of the output are those of
    the qualifying headers, the files taken in sorted order and the lines
    of a file in their order, up to the third: no qualifying header in
    front of the cap is left out, none is reported twice, and no other
    line gives a record. *)
Theorem output_timestamps (fs : file_system) globbed read output :
  main fs globbed = (read, Dumped output) ->
  map timestamp output =
  firstn cap (flat_map (file_timestamps fs) (sorted globbed)).
Proof.
  intros Hmain. apply main_dumped_inv in Hmain as [_ ->].
  rewrite <- firstn_map. f_equal. apply file_events_timestamps.
Qed.

(** The cursor never leaves the file, and the loop ends in front of the
    end of the file only when the cap is reached. *)
Lemma scan_cursor lines i output :
  forall j output',
    scan lines i output = Some (j, output') ->
    i <= List.length lines ->
    j <= List.length lines /\
    (List.length output' < cap -> j = List.length lines).
Proof.
  funelim (scan lines i output); intros j output'' Hs Hi.
  - injection Hs as <- <-.
    pose proof (proj1 (nth_error_None _ _) e). split; lia.
  - injection Hs as <- <-. apply Nat.ltb_ge in Heq. split; [lia|]. lia.
  - destruct (body_spec lines i l output Hl) as (i'' & Hb' & Hrange & _).
    rewrite Hb in Hb'. injection Hb' as -> _.
    apply (H j output'' Hs). lia.
  - discriminate Hs.
Qed.

Lemma for_files_below_cap (fs : file_system) paths output read :
  Forall (fun p => fs p <> None) paths ->
  List.length (output ++ flat_map (file_events fs) paths) < cap ->
  for_files fs paths output read =
  (read ++ map (fun p => (p, file_length fs p)) paths,
   Dumped (output ++ flat_map (file_events fs) paths)).
Proof.
  intros Hall. revert output read.
  induction Hall as [|p paths Hp _ IH]; intros output read Hlen.
  - cbn. now rewrite !app_nil_r.
  - cbn [for_files flat_map map] in *.
    unfold file_events at 1, file_length at 1.
    unfold file_events at 1 in Hlen.
    destruct (fs p) as [lines|] eqn:Ep; [|congruence].
    rewrite app_assoc in Hlen.
    assert (Hout : List.length (output ++ events lines) < cap).
    { rewrite length_app in Hlen. lia. }
    assert (Hlen0 : List.length output <= cap).
    { rewrite length_app in Hout. lia. }
    destruct (scan_spec lines 0 output Hlen0) as (j & Ej & _).
    fold (events lines) in Ej.
    rewrite firstn_all2 in Ej by lia.
    destruct (scan_cursor _ _ _ _ _ Ej (Nat.le_0_l _)) as [_ Hend].
    rewrite Ej, (Hend Hout), IH by exact Hlen.
    now rewrite <- !app_assoc.
Qed.

(** [X5] When every file can be opened and the files hold at most three
    qualifying events, all of them are in the output, none is dropped;
    when they hold fewer than three, every file is scanned to its last
    line. *)
Theorem few_events_all_reported (fs : file_system) (globbed : list string) :
  (forall p, In p globbed -> fs p <> None) ->
  let all := flat_map (file_events fs) (sorted globbed) in
  List.length all <= cap ->
  snd (main fs globbed) = Dumped all /\
  (List.length all < cap ->
   fst (main fs globbed) =
   map (fun p => (p, file_length fs p)) (sorted globbed)).
Proof.
  intros Hread all Hfew. apply sorted_readable in Hread. split.
  - unfold main. rewrite for_files_outcome by (unfold cap; simpl; lia).
    rewrite (proj2 (find_unreadable_none _ _) Hread).
    cbn [app]. fold all. now rewrite firstn_all2.
  - intros Hlt. unfold main.
    now rewrite for_files_below_cap by assumption.
Qed.

Lemma scan_prefix lines i output :
  exists j new,
    scan lines i output = Some (j, output ++ new) /\
    List.length new <= cap - List.length output.
Proof.
  destruct (Nat.le_gt_cases (List.length output) cap) as [H|H].
  - destruct (scan_spec lines i output H) as (j & E & _).
    exists j, (firstn (cap - List.length output) (events_from lines i)).
    rewrite E, firstn_app, firstn_all2 by exact H.
    split; [reflexivity|]. rewrite length_firstn. lia.
  - exists i, []. rewrite scan_at_cap, app_nil_r by lia.
    split; [reflexivity|]. simpl. lia.
Qed.

(** [X6] The outer loop only appends: whatever it is given, the records
    that are there stay, in their order, and what it adds never takes the
    output beyond the cap. *)
Theorem scan_appends lines i output :
  exists j new,
    scan lines i output = Some (j, output ++ new) /\
    List.length new <= cap - List.length output.
Proof. apply scan_prefix. Qed.

Lemma for_files_prefix (fs : file_system) paths output read read' output' :
  for_files fs paths output read = (read', Dumped output') ->
  (exists more, output' = output ++ more) /\
  (exists more, read' = read ++ more).
Proof.
  revert output read. induction paths as [|p paths IH]; intros output read.
  - cbn. intros [= <- <-]. split; exists []; now rewrite app_nil_r.
  - cbn [for_files]. destruct (fs p) as [lines|]; [|discriminate].
    destruct (scan_prefix lines 0 output) as (j & new & -> & _).
    intros H. apply IH in H as [[more ->] [more' ->]].
    split; eexists; rewrite <- app_assoc; reflexivity.
Qed.

(** [X15] The loop over the files composes: over a list of paths
    followed by another it does what it does over the first list and goes
    on from there over the second.  The records and the files of the
    first list stay at the head of what a completed run gives. *)
Theorem later_files_keep_records (fs : file_system)
    pre post output read read1 out1 :
  for_files fs pre output read = (read1, Dumped out1) ->
  for_files fs (pre ++ post) output read = for_files fs post out1 read1 /\
  forall read2 out2,
    for_files fs (pre ++ post) output read = (read2, Dumped out2) ->
    (exists more, out2 = out1 ++ more) /\
    (exists more, read2 = read1 ++ more).
Proof.
  intros Hpre.
  assert (E : for_files fs (pre ++ post) output read =
              for_files fs post out1 read1)
    by now rewrite for_files_app, Hpre.
  split; [exact E|]. intros read2 out2 H. rewrite E in H.
  exact (for_files_prefix _ _ _ _ _ _ H).
Qed.

(** * The three kinds of line *)

(** [X16] No line is of two kinds: a line that [event_re] matches is
    matched neither by [size_re] nor by [hex_re], and a line that
    [size_re] matches is not matched by [hex_re]. *)
Theorem line_kinds_exclusive l :
  (event_re_match l <> None ->
   size_re_match l = false /\ hex_re_match l = false) /\
  (size_re_match l = true -> hex_re_match l = false).
Proof.
  split.
  - destruct (event_re_match l) as [g|] eqn:E; [intros _|congruence].
    split; [exact (event_not_size _ _ E)|exact (event_not_hex _ _ E)].
  - apply size_not_hex.
Qed.

(** * The order of the directory listing *)

Lemma string_leb_trans a b c :
  String.leb a b = true -> String.leb b c = true -> String.leb a c = true.
Proof.
  revert b c. induction a as [|x a IH]; intros [|y b] [|z c];
    try reflexivity; try discriminate.
  unfold String.leb. cbn [String.compare]. unfold Ascii.compare.
  destruct (N.compare_spec (N_of_ascii x) (N_of_ascii y));
    destruct (N.compare_spec (N_of_ascii y) (N_of_ascii z));
    destruct (N.compare_spec (N_of_ascii x) (N_of_ascii z));
    intros Hab Hbc; try discriminate; try reflexivity; try lia.
  exact (IH b c Hab Hbc).
Qed.

Lemma path_le_transitive : Relations_1.Transitive path_le.
Proof. intros a b c. apply string_leb_trans. Qed.

(** A list of paths has one sorted arrangement only. *)
Lemma sorted_arrangement_unique l1 l2 :
  StronglySorted path_le l1 -> StronglySorted path_le l2 ->
  Permutation l1 l2 -> l1 = l2.
Proof.
  intros H1. revert l2. induction H1 as [|a l1 Hs1 IH Ha]; intros l2 H2 Hp.
  - now apply Permutation_nil in Hp.
  - destruct H2 as [|b l2 Hs2 Hb].
    + apply Permutation_sym, Permutation_nil in Hp. discriminate.
    + assert (Eab : a = b).
      { assert (Hin_a : In a (b :: l2))
          by (apply (Permutation_in _ Hp); now left).
        assert (Hin_b : In b (a :: l1))
          by (apply (Permutation_in _ (Permutation_sym Hp)); now left).
        destruct Hin_a as [->|Hin_a]; [reflexivity|].
        destruct Hin_b as [->|Hin_b]; [reflexivity|].
        apply String.leb_antisym.
        - exact (proj1 (Forall_forall _ _) Ha _ Hin_b).
        - exact (proj1 (Forall_forall _ _) Hb _ Hin_a). }
      subst b. f_equal. apply IH; [exact Hs2|].
      now apply Permutation_cons_inv in Hp.
Qed.

Lemma sorted_of_permutation g1 g2 :
  Permutation g1 g2 -> sorted g1 = sorted g2.
Proof.
  intros Hp. apply sorted_arrangement_unique.
  - apply Sorted_StronglySorted;
      [exact path_le_transitive|apply sorted_sorted].
  - apply Sorted_StronglySorted;
      [exact path_le_transitive|apply sorted_sorted].
  - rewrite !sorted_perm. exact Hp.
Qed.

(** [X7] The run does not depend on the order in which [glob] lists the
    files: two listings of the same paths give the same files read, the
    same cursors and the same outcome. *)
Theorem listing_order_irrelevant (fs : file_system) g1 g2 :
  Permutation g1 g2 -> main fs g1 = main fs g2.
Proof.
  intros Hp. unfold main. now rewrite (sorted_of_permutation g1 g2 Hp).
Qed.

(** * Further properties of the decoding *)

Lemma byte_re_findall_length l :
  2 * List.length (byte_re_findall l) <= String.length l.
Proof.
  enough (H : 2 * List.length (byte_re_findall l) <= String.length l /\
              forall a, 2 * List.length (byte_re_findall (String a l))
                        <= S (String.length l))
    by apply H.
  induction l as [|b l [IH1 IH2]].
  - split; [simpl; lia|]. intros a. simpl. lia.
  - split; [apply IH2|]. intros a.
    change (byte_re_findall (String a (String b l))) with
      (if is_hex a && is_hex b
       then String a (String b EmptyString) :: byte_re_findall l
       else byte_re_findall (String b l)).
    destruct (is_hex a && is_hex b); cbn [List.length String.length].
    + lia.
    + specialize (IH2 b). cbn [String.length] in IH2. lia.
Qed.

Lemma line_bytes_range l : Forall is_byte (line_bytes l).
Proof.
  unfold line_bytes. apply Forall_map.
  eapply Forall_impl; [|apply byte_re_findall_two_hex].
  intros b Hb. unfold byte_of.
  destruct (int16_two_hex b Hb) as (v & -> & Hv). exact Hv.
Qed.

(** [X8] What a line adds to the accumulator are bytes: every value is
    between 0 and 255, so [bytearray.append] accepts it, and a line of
    [n] characters adds at most [n / 2] of them. *)
Theorem line_bytes_are_bytes l :
  Forall is_byte (line_bytes l) /\
  2 * List.length (line_bytes l) <= String.length l.
Proof.
  split; [apply line_bytes_range|].
  unfold line_bytes. rewrite length_map. apply byte_re_findall_length.
Qed.

Lemma byte_re_findall_all_hex s :
  string_forallb is_hex s = true ->
  List.length (byte_re_findall s) = String.length s / 2.
Proof.
  enough (H : (string_forallb is_hex s = true ->
               List.length (byte_re_findall s) = String.length s / 2) /\
              forall a, string_forallb is_hex (String a s) = true ->
                List.length (byte_re_findall (String a s)) =
                S (String.length s) / 2)
    by apply H.
  induction s as [|b s [IH1 IH2]].
  - split; [reflexivity|]. intros a _. reflexivity.
  - split; [apply IH2|]. intros a Ha.
    cbn [string_forallb] in Ha.
    apply andb_true_iff in Ha as [Ha Hs].
    pose proof Hs as Hs'. apply andb_true_iff in Hs' as [Hb Hs'].
    change (byte_re_findall (String a (String b s))) with
      (if is_hex a && is_hex b
       then String a (String b EmptyString) :: byte_re_findall s
       else byte_re_findall (String b s)).
    rewrite Ha, Hb. cbn [andb List.length String.length].
    rewrite (IH1 Hs').
    change (S (S (String.length s))) with (1 * 2 + String.length s).
    rewrite Nat.div_add_l by lia. reflexivity.
Qed.

(** [X9] On a text made of characters of [[0-9a-f]] only, the scan pairs
    the characters off from the left: [n] characters give [n / 2] bytes,
    and a last character without a partner is dropped. *)
Theorem hex_text_byte_count s :
  string_forallb is_hex s = true ->
  List.length (line_bytes s) = String.length s / 2.
Proof.
  intros H. unfold line_bytes. rewrite length_map.
  now apply byte_re_findall_all_hex.
Qed.

Lemma hex2_checked :
  forallb (fun v => is_hex (hex_char (v / 16)) &&
                    is_hex (hex_char (v mod 16)) &&
                    (byte_of (hex2 v) =? v)%Z)
          (map Z.of_nat (List.seq 0 256)) = true.
Proof. vm_compute. reflexivity. Qed.

Lemma hex2_decodes v :
  is_byte v ->
  is_hex (hex_char (v / 16)) = true /\
  is_hex (hex_char (v mod 16)) = true /\
  byte_of (hex2 v) = v.
Proof.
  intros Hv.
  assert (Hin : In v (map Z.of_nat (List.seq 0 256))).
  { rewrite <- (Z2Nat.id v) by (unfold is_byte in Hv; lia).
    apply in_map, in_seq. unfold is_byte in Hv. lia. }
  pose proof (proj1 (forallb_forall _ _) hex2_checked v Hin) as H.
  apply andb_true_iff in H as [H H3]. apply andb_true_iff in H as [H1 H2].
  apply Z.eqb_eq in H3. auto.
Qed.

Lemma byte_re_findall_hex2 v rest :
  is_byte v ->
  byte_re_findall (hex2 v ++ rest) = hex2 v :: byte_re_findall rest.
Proof.
  intros Hv. destruct (hex2_decodes v Hv) as (H1 & H2 & _).
  unfold hex2. cbn [String.append byte_re_findall].
  now rewrite H1, H2.
Qed.

Lemma byte_re_findall_no_hex sep rest :
  no_hex_char sep = true ->
  byte_re_findall (sep ++ rest) = byte_re_findall rest.
Proof.
  unfold no_hex_char. induction sep as [|a sep IH]; [reflexivity|].
  cbn [string_forallb]. intros H. apply andb_true_iff in H as [Ha Hs].
  apply negb_true_iff in Ha. rewrite <- (IH Hs).
  cbn [String.append]. destruct (sep ++ rest)%string as [|b t] eqn:E.
  - reflexivity.
  - cbn [byte_re_findall]. now rewrite Ha.
Qed.

(** [X10] Decoding undoes the writing of bytes in hexadecimal: a list of
    bytes written as pairs of lower-case digits, one pair behind the
    other or with a separator that holds no such digit between them, is
    read back as the same list. *)
Theorem hex_round_trip sep bs :
  Forall is_byte bs ->
  no_hex_char sep = true ->
  line_bytes (String.concat sep (map hex2 bs)) = bs.
Proof.
  intros Hbs Hsep. unfold line_bytes.
  induction Hbs as [|v bs Hv Hbs IH]; [reflexivity|].
  destruct (hex2_decodes v Hv) as (_ & _ & Ev).
  destruct bs as [|w bs].
  - cbn [map String.concat].
    replace (hex2 v) with (hex2 v ++ EmptyString)%string
      by (unfold hex2; reflexivity).
    rewrite byte_re_findall_hex2 by exact Hv.
    cbn [map byte_re_findall].
    replace (hex2 v ++ EmptyString)%string with (hex2 v)
      by (unfold hex2; reflexivity).
    now rewrite Ev.
  - change (String.concat sep (map hex2 (v :: w :: bs))) with
      (hex2 v ++ sep ++ String.concat sep (map hex2 (w :: bs)))%string.
    rewrite byte_re_findall_hex2, byte_re_findall_no_hex by assumption.
    cbn [map]. rewrite Ev. f_equal. exact IH.
Qed.

(** * Further properties of one event *)

Lemma skipn_behind {A} (pre l : list A) k :
  skipn (List.length pre + k) (pre ++ l) = skipn k l.
Proof.
  rewrite skipn_app, skipn_all2 by lia.
  replace (List.length pre + k - List.length pre) with k by lia.
  reflexivity.
Qed.

Lemma event_bytes_behind pre h rest :
  event_bytes (pre ++ h :: rest) (List.length pre) =
  flat_map line_bytes (dump_behind rest).
Proof.
  unfold event_bytes, dump_lines, dump_start, dump_behind.
  rewrite nth_error_app2 by lia.
  replace (S (List.length pre) - List.length pre) with 1 by lia.
  cbn [nth_error].
  destruct rest as [|s rest].
  - replace (S (List.length pre)) with (List.length pre + 1) by lia.
    now rewrite skipn_behind.
  - destruct (size_re_match s).
    + replace (S (S (List.length pre))) with (List.length pre + 2) by lia.
      now rewrite skipn_behind.
    + replace (S (List.length pre)) with (List.length pre + 1) by lia.
      now rewrite skipn_behind.
Qed.

(** [X11] The record of a qualifying header is made of the timestamp of
    the header and of the lines behind it alone: the bytes are those of
    the hex dump that starts behind the header, or behind the size line
    that follows it.  The lines in front of the header, the direction,
    protocol, tag and length it carries and the records already in the
    output do not enter the record. *)
Theorem record_of_header pre h rest g output :
  event_re_match h = Some g -> wanted g = true ->
  exists j,
    body (pre ++ h :: rest) (List.length pre) h output =
    Some (j, output ++
             [mk_record (g_ts g)
                (b64encode (flat_map line_bytes (dump_behind rest)))]).
Proof.
  intros Hg Hw. rewrite (body_wanted _ _ _ _ _ Hg Hw), event_bytes_behind.
  eauto.
Qed.

(** * The shape of the records *)

Lemma string_app_assoc (a b c : string) :
  ((a ++ b) ++ c = a ++ (b ++ c))%string.
Proof. induction a as [|x a IH]; simpl; [reflexivity|now rewrite IH]. Qed.

Lemma string_app_nil_r (a : string) : (a ++ EmptyString)%string = a.
Proof. induction a as [|x a IH]; simpl; [reflexivity|now rewrite IH]. Qed.

Lemma string_length_app (a b : string) :
  String.length (a ++ b) = String.length a + String.length b.
Proof. induction a as [|x a IH]; simpl; [reflexivity|now rewrite IH]. Qed.

Lemma chars_stable n cls : stable (chars n cls).
Proof.
  induction n as [|n IH]; intros s t r x; simpl.
  - now intros [= <- <-].
  - destruct s as [|b s']; [discriminate|].
    destruct (cls b) eqn:Eb; [|discriminate].
    destruct (chars n cls s') as [[t' r']|] eqn:E; [|discriminate].
    intros [= <- <-]. simpl. now rewrite Eb, (IH _ _ _ x E).
Qed.

Lemma lit_stable p : stable (lit p).
Proof.
  induction p as [|a p IH]; intros s t r x; simpl.
  - now intros [= <- <-].
  - destruct s as [|b s']; [discriminate|].
    destruct (Ascii.eqb a b) eqn:Eb; [|discriminate].
    destruct (lit p s') as [[t' r']|] eqn:E; [|discriminate].
    intros [= <- <-]. simpl. now rewrite Eb, (IH _ _ _ x E).
Qed.

Lemma seq_stable p q : stable p -> stable q -> stable (seq p q).
Proof.
  intros Hp Hq s t r x. unfold seq.
  destruct (p s) as [[t1 r1]|] eqn:E1; [|discriminate].
  destruct (q r1) as [[t2 r2]|] eqn:E2; [|discriminate].
  intros [= <- <-].
  now rewrite string_app_assoc, (Hp _ _ _ (t2 ++ x)%string E1),
    (Hq _ _ _ x E2).
Qed.

Lemma timestamp_pat_stable : stable timestamp_pat.
Proof.
  unfold timestamp_pat.
  repeat first [apply seq_stable | apply chars_stable | apply lit_stable].
Qed.

Lemma seq_length p q n m :
  (forall s t r, p s = Some (t, r) -> String.length t = n) ->
  (forall s t r, q s = Some (t, r) -> String.length t = m) ->
  forall s t r, seq p q s = Some (t, r) -> String.length t = n + m.
Proof.
  intros Hp Hq s t r. unfold seq.
  destruct (p s) as [[t1 r1]|] eqn:E1; [|discriminate].
  destruct (q r1) as [[t2 r2]|] eqn:E2; [|discriminate].
  intros [= <- <-].
  now rewrite string_length_app, (Hp _ _ _ E1), (Hq _ _ _ E2).
Qed.

Lemma chars_length n cls s t r :
  chars n cls s = Some (t, r) -> String.length t = n.
Proof. intros H. now apply chars_inv in H. Qed.

Lemma lit_length p s t r :
  lit p s = Some (t, r) -> String.length t = String.length p.
Proof. intros H. apply lit_inv in H as [-> _]. reflexivity. Qed.

Lemma timestamp_pat_length l ts r :
  timestamp_pat l = Some (ts, r) -> String.length ts = 19.
Proof.
  unfold timestamp_pat. intros H.
  eapply (seq_length _ _ 4 15) in H; [exact H|apply chars_length|].
  intros ? ? ? H1.
  eapply (seq_length _ _ 1 14) in H1; [exact H1|apply lit_length|].
  intros ? ? ? H2.
  eapply (seq_length _ _ 2 12) in H2; [exact H2|apply chars_length|].
  intros ? ? ? H3.
  eapply (seq_length _ _ 1 11) in H3; [exact H3|apply lit_length|].
  intros ? ? ? H4.
  eapply (seq_length _ _ 2 9) in H4; [exact H4|apply chars_length|].
  intros ? ? ? H5.
  eapply (seq_length _ _ 1 8) in H5; [exact H5|apply lit_length|].
  intros ? ? ? H6.
  eapply (seq_length _ _ 2 6) in H6; [exact H6|apply chars_length|].
  intros ? ? ? H7.
  eapply (seq_length _ _ 1 5) in H7; [exact H7|apply lit_length|].
  intros ? ? ? H8.
  eapply (seq_length _ _ 2 3) in H8; [exact H8|apply chars_length|].
  intros ? ? ? H9.
  eapply (seq_length _ _ 1 2) in H9; [exact H9|apply lit_length|].
  apply chars_length.
Qed.

(** The first group of a header is a timestamp and nothing else. *)
Lemma event_timestamp_shape l g :
  event_re_match l = Some g ->
  timestamp_pat (g_ts g) = Some (g_ts g, EmptyString) /\
  String.length (g_ts g) = 19.
Proof.
  unfold event_re_match.
  destruct (timestamp_pat l) as [[ts r]|] eqn:E; [|discriminate].
  destruct (lit " " r) as [[? r1]|]; [|discriminate].
  destruct (alt (lit "send") (lit "recv") r1) as [[? r2]|]; [|discriminate].
  destruct (lit " " r2) as [[? r3]|]; [|discriminate].
  destruct (alt (lit "tcp") (lit "udp") r3) as [[? r4]|]; [|discriminate].
  destruct (lit " tag " r4) as [[? r5]|]; [|discriminate].
  destruct (many1 is_digit r5) as [[? r6]|]; [|discriminate].
  destruct (lit " len " r6) as [[? r7]|]; [|discriminate].
  destruct (many1 is_digit r7) as [[? r8]|]; [|discriminate].
  intros [= <-]. cbn [g_ts]. split.
  - pose proof (timestamp_pat_stable _ _ _ EmptyString E) as H.
    now rewrite string_app_nil_r in H.
  - exact (timestamp_pat_length _ _ _ E).
Qed.

(** The record of a line of a file, traced back to its header. *)
Lemma output_record_origin (fs : file_system) globbed read output r :
  main fs globbed = (read, Dumped output) ->
  In r output ->
  exists lines k l g,
    nth_error lines k = Some l /\ event_re_match l = Some g /\
    wanted g = true /\
    r = mk_record (g_ts g) (b64encode (event_bytes lines k)).
Proof.
  intros Hmain Hin. apply main_dumped_inv in Hmain as [_ ->].
  apply In_firstn in Hin.
  apply in_flat_map in Hin as (p & _ & Hin). unfold file_events in Hin.
  destruct (fs p) as [lines|]; [|destruct Hin].
  apply in_flat_map in Hin as (k & _ & Hin).
  destruct (event_at_In _ _ _ Hin) as (l & g & Hl & Hg & Hw & _ & _).
  rewrite (event_at_wanted _ _ _ _ Hl Hg Hw) in Hin.
  destruct Hin as [<-|[]]. exists lines, k, l, g. auto.
Qed.

(** [X12] Every timestamp in the output of a completed run is a whole
    timestamp: the pattern [\d{4}/\d{2}/\d{2} \d{2}:\d{2}:\d{2}] matches
    it from its first to its last character, and it is 19 characters
    long. *)
Theorem output_timestamp_shape (fs : file_system) globbed read output r :
  main fs globbed = (read, Dumped output) ->
  In r output ->
  timestamp_pat (timestamp r) = Some (timestamp r, EmptyString) /\
  String.length (timestamp r) = 19.
Proof.
  intros Hmain Hin.
  destruct (output_record_origin _ _ _ _ _ Hmain Hin)
    as (lines & k & l & g & _ & Hg & _ & ->).
  cbn [timestamp]. exact (event_timestamp_shape _ _ Hg).
Qed.

Lemma list_ind3 {A} (P : list A -> Prop) :
  P [] -> (forall a, P [a]) -> (forall a b, P [a; b]) ->
  (forall a b c l, P l -> P (a :: b :: c :: l)) ->
  forall l, P l.
Proof.
  intros H0 H1 H2 H3 l.
  enough (H : P l /\ (forall a, P (a :: l)) /\ (forall a b, P (a :: b :: l)))
    by apply H.
  induction l as [|x l (IH0 & IH1 & IH2)].
  - auto.
  - split; [apply IH1|]. split; [intros a; apply IH2|].
    intros a b. now apply H3.
Qed.

Lemma enc_b64_char v : is_b64_char (enc v) = true.
Proof.
  unfold enc. generalize (Z.to_nat v). intros n.
  do 64 (destruct n as [|n]; [reflexivity|]). reflexivity.
Qed.

Lemma b64encode_chars bs : string_forallb is_b64_char (b64encode bs) = true.
Proof.
  induction bs as [|a|a b|a b c l IH] using list_ind3;
    cbn [b64encode string_forallb]; rewrite ?enc_b64_char; try reflexivity.
  exact IH.
Qed.

Lemma b64encode_length bs :
  String.length (b64encode bs) = 4 * ((List.length bs + 2) / 3).
Proof.
  induction bs as [|a|a b|a b c l IH] using list_ind3;
    try reflexivity.
  cbn [b64encode String.length List.length]. rewrite IH.
  replace (S (S (S (List.length l))) + 2)
    with (1 * 3 + (List.length l + 2)) by lia.
  rewrite Nat.div_add_l by lia. lia.
Qed.

Lemma event_bytes_range lines k : Forall is_byte (event_bytes lines k).
Proof.
  unfold event_bytes. apply Forall_flat_map, Forall_forall.
  intros l _. apply line_bytes_range.
Qed.

(** [X13] The data of every record in the output is the base64 text of
    a list of bytes: its length is four characters for every three bytes
    begun, and it is made of letters, digits, [+], [/] and the padding
    [=] only. *)
Theorem output_data_shape (fs : file_system) globbed read output r :
  main fs globbed = (read, Dumped output) ->
  In r output ->
  exists bytes,
    Forall is_byte bytes /\
    data r = b64encode bytes /\
    String.length (data r) = 4 * ((List.length bytes + 2) / 3) /\
    string_forallb is_b64_char (data r) = true.
Proof.
  intros Hmain Hin.
  destruct (output_record_origin _ _ _ _ _ Hmain Hin)
    as (lines & k & l & g & _ & _ & _ & ->).
  exists (event_bytes lines k). cbn [data].
  repeat split.
  - apply event_bytes_range.
  - apply b64encode_length.
  - apply b64encode_chars.
Qed.

(** * The output file *)

Example json_dump_empty : json_dump [] = "[]".
Proof. reflexivity. Qed.

Example json_dump_logs :
  json_dump logs_output =
  String.concat newline
    [ "[";
      "  {";
      "    " ++ quoted "timestamp" ++ ": " ++ quoted "2025/07/14 09:15:02" ++ ",";
      "    " ++ quoted "data" ++ ": " ++ quoted "AAAAAKvN";
      "  },";
      "  {";
      "    " ++ quoted "timestamp" ++ ": " ++ quoted "2025/07/14 09:16:01" ++ ",";
      "    " ++ quoted "data" ++ ": " ++ quoted "AAAAEAEC";
      "  },";
      "  {";
      "    " ++ quoted "timestamp" ++ ": " ++ quoted "2025/07/14 09:16:02" ++ ",";
      "    " ++ quoted "data" ++ ": " ++ quoted EmptyString;
      "  }";
      "]" ]%string.
Proof. vm_compute. reflexivity. Qed.

Lemma json_escape_plain c :
  is_json_plain c = true -> json_escape c = String c EmptyString.
Proof.
  destruct c as [[|] [|] [|] [|] [|] [|] [|] [|]];
    vm_compute; first [reflexivity | discriminate].
Qed.

Lemma json_string_plain s :
  string_forallb is_json_plain s = true -> json_string s = quoted s.
Proof.
  intros H. unfold json_string, quoted. do 2 f_equal.
  induction s as [|c s IH]; [reflexivity|].
  cbn [string_forallb] in H. apply andb_true_iff in H as [Hc Hs].
  cbn [json_escape_string]. now rewrite (json_escape_plain c Hc), (IH Hs).
Qed.

Lemma string_forallb_impl (P Q : ascii -> bool) s :
  (forall c, P c = true -> Q c = true) ->
  string_forallb P s = true -> string_forallb Q s = true.
Proof.
  intros HPQ. induction s as [|c s IH]; [reflexivity|].
  cbn [string_forallb]. intros H. apply andb_true_iff in H as [Hc Hs].
  now rewrite (HPQ c Hc), (IH Hs).
Qed.

Lemma string_forallb_app P a b :
  string_forallb P (a ++ b)%string =
  string_forallb P a && string_forallb P b.
Proof.
  induction a as [|c a IH]; [reflexivity|].
  cbn [String.append string_forallb]. now rewrite IH, andb_assoc.
Qed.

Lemma timestamp_char_plain c :
  is_timestamp_char c = true -> is_json_plain c = true.
Proof.
  destruct c as [[|] [|] [|] [|] [|] [|] [|] [|]];
    vm_compute; first [reflexivity | discriminate].
Qed.

Lemma b64_char_plain c : is_b64_char c = true -> is_json_plain c = true.
Proof.
  destruct c as [[|] [|] [|] [|] [|] [|] [|] [|]];
    vm_compute; first [reflexivity | discriminate].
Qed.

Lemma digit_timestamp_char c :
  is_digit c = true -> is_timestamp_char c = true.
Proof. unfold is_timestamp_char. now intros ->. Qed.

Lemma seq_text P p q :
  (forall s t r, p s = Some (t, r) -> string_forallb P t = true) ->
  (forall s t r, q s = Some (t, r) -> string_forallb P t = true) ->
  forall s t r, seq p q s = Some (t, r) -> string_forallb P t = true.
Proof.
  intros Hp Hq s t r. unfold seq.
  destruct (p s) as [[t1 r1]|] eqn:E1; [|discriminate].
  destruct (q r1) as [[t2 r2]|] eqn:E2; [|discriminate].
  intros [= <- <-].
  now rewrite string_forallb_app, (Hp _ _ _ E1), (Hq _ _ _ E2).
Qed.

Lemma digits_text n s t r :
  chars n is_digit s = Some (t, r) ->
  string_forallb is_timestamp_char t = true.
Proof.
  intros H. apply chars_all in H.
  exact (string_forallb_impl _ _ _ digit_timestamp_char H).
Qed.

Lemma lit_text P p s t r :
  string_forallb P p = true ->
  lit p s = Some (t, r) -> string_forallb P t = true.
Proof. intros Hp H. now apply lit_inv in H as [-> _]. Qed.

Lemma timestamp_pat_text l ts r :
  timestamp_pat l = Some (ts, r) ->
  string_forallb is_timestamp_char ts = true.
Proof.
  unfold timestamp_pat. revert l ts r.
  repeat first
    [ apply seq_text
    | exact (digits_text _)
    | intros ? ? ?; apply lit_text; reflexivity ].
Qed.

Lemma event_timestamp_text l g :
  event_re_match l = Some g ->
  string_forallb is_timestamp_char (g_ts g) = true.
Proof.
  intros Hg. destruct (event_timestamp_shape l g Hg) as [H _].
  exact (timestamp_pat_text _ _ _ H).
Qed.

(** The fields of a record of the model are written as they are. *)
Lemma output_record_json (fs : file_system) globbed read output r :
  main fs globbed = (read, Dumped output) ->
  In r output ->
  json_record r =
  ("{" ++ newline ++
   "    " ++ quoted "timestamp" ++ ": " ++ quoted (timestamp r) ++
   "," ++ newline ++
   "    " ++ quoted "data" ++ ": " ++ quoted (data r) ++
   newline ++ "  }")%string.
Proof.
  intros Hmain Hin.
  destruct (output_record_origin _ _ _ _ _ Hmain Hin)
    as (lines & k & l & g & _ & Hg & _ & ->).
  unfold json_record. cbn [timestamp data].
  rewrite (json_string_plain (g_ts g)),
          (json_string_plain (b64encode (event_bytes lines k))).
  - reflexivity.
  - exact (string_forallb_impl _ _ _ b64_char_plain (b64encode_chars _)).
  - exact (string_forallb_impl _ _ _ timestamp_char_plain
             (event_timestamp_text _ _ Hg)).
Qed.

(** [X14] When the input files are ASCII text, every record of a
    completed run is written to the output file with its two fields as
    they are, between quotes: no character of a timestamp or of the
    base64 data needs an escape. *)
Theorem output_written_verbatim (fs : file_system) globbed read output r :
  ascii_inputs fs globbed ->
  main fs globbed = (read, Dumped output) ->
  In r output ->
  json_record r =
  ("{" ++ newline ++
   "    " ++ quoted "timestamp" ++ ": " ++ quoted (timestamp r) ++
   "," ++ newline ++
   "    " ++ quoted "data" ++ ": " ++ quoted (data r) ++
   newline ++ "  }")%string.
Proof. intros _. apply output_record_json. Qed.

(** * The format of a header *)

Lemma chars_sound n cls : sound (chars n cls).
Proof. intros s t r H. now apply chars_inv in H. Qed.

Lemma lit_sound p : sound (lit p).
Proof. intros s t r H. now apply lit_inv in H as [-> ->]. Qed.

Lemma seq_sound p q : sound p -> sound q -> sound (seq p q).
Proof.
  intros Hp Hq s t r. unfold seq.
  destruct (p s) as [[t1 r1]|] eqn:E1; [|discriminate].
  destruct (q r1) as [[t2 r2]|] eqn:E2; [|discriminate].
  intros [= <- <-].
  now rewrite string_app_assoc, <- (Hq _ _ _ E2), <- (Hp _ _ _ E1).
Qed.

Lemma timestamp_pat_sound : sound timestamp_pat.
Proof.
  unfold timestamp_pat.
  repeat first [apply seq_sound | apply chars_sound | apply lit_sound].
Qed.

Lemma many_spec cls s :
  s = (fst (many cls s) ++ snd (many cls s))%string /\
  string_forallb cls (fst (many cls s)) = true.
Proof.
  induction s as [|b s [IH1 IH2]]; [split; reflexivity|].
  simpl. destruct (cls b) eqn:E; [|split; reflexivity].
  destruct (many cls s) as [t r]. simpl in *. split.
  - now rewrite <- IH1.
  - now rewrite E, IH2.
Qed.

Lemma many1_inv s t r :
  many1 is_digit s = Some (t, r) ->
  s = (t ++ r)%string /\ is_number t = true /\ starts_without_digit r.
Proof.
  unfold many1. intros H.
  pose proof (many_spec is_digit s) as [Hs Hall].
  pose proof (many_maximal is_digit s) as Hmax.
  destruct (many is_digit s) as [t' r']. cbn [fst snd] in *.
  destruct t' as [|c t']; [discriminate|].
  injection H as <- <-. repeat split; [exact Hs| |].
  - unfold is_number. now rewrite Hall.
  - unfold starts_without_digit. destruct r'; [exact I|exact Hmax].
Qed.

Lemma many_complete cls t r :
  string_forallb cls t = true ->
  match r with String c _ => cls c = false | EmptyString => True end ->
  many cls (t ++ r)%string = (t, r).
Proof.
  intros Ht Hr. induction t as [|c t IH].
  - destruct r as [|c r]; [reflexivity|]. simpl. now rewrite Hr.
  - cbn [string_forallb] in Ht. apply andb_true_iff in Ht as [Hc Ht].
    simpl. now rewrite Hc, (IH Ht).
Qed.

Lemma many1_complete t r :
  is_number t = true -> starts_without_digit r ->
  many1 is_digit (t ++ r)%string = Some (t, r).
Proof.
  unfold is_number, many1. intros Ht Hr.
  apply andb_true_iff in Ht as [Hne Ht].
  rewrite many_complete by assumption.
  destruct t; [discriminate|reflexivity].
Qed.

Lemma lit_complete p x : lit p (p ++ x)%string = Some (p, x).
Proof.
  induction p as [|a p IH]; [reflexivity|].
  simpl. now rewrite Ascii.eqb_refl, IH.
Qed.

Lemma direction_complete d x :
  d = "send" \/ d = "recv" ->
  alt (lit "send") (lit "recv") (d ++ x)%string = Some (d, x).
Proof. intros [-> | ->]; reflexivity. Qed.

Lemma proto_complete d x :
  d = "tcp" \/ d = "udp" ->
  alt (lit "tcp") (lit "udp") (d ++ x)%string = Some (d, x).
Proof. intros [-> | ->]; reflexivity. Qed.

(** What the matcher of [event_re] accepts. *)
Lemma event_re_match_format l g :
  event_re_match l = Some g <->
  well_formed_groups g /\
  exists rest,
    l = (g_ts g ++ " " ++ g_direction g ++ " " ++ g_proto g ++
         " tag " ++ g_tag g ++ " len " ++ g_length g ++ rest)%string /\
    starts_without_digit rest.
Proof.
  split.
  - intros Hg.
    pose proof (event_timestamp_shape l g Hg) as [Hts _].
    revert Hg. unfold event_re_match.
    destruct (timestamp_pat l) as [[ts r]|] eqn:E0; [|discriminate].
    apply timestamp_pat_sound in E0 as ->.
    destruct (lit " " r) as [[t1 r1]|] eqn:E1; [|discriminate].
    apply lit_inv in E1 as [_ ->].
    destruct (alt (lit "send") (lit "recv") r1) as [[d r2]|] eqn:E2;
      [|discriminate].
    assert (Hd : (d = "send" \/ d = "recv") /\ r1 = (d ++ r2)%string).
    { unfold alt in E2. destruct (lit "send" r1) as [[? ?]|] eqn:E.
      - injection E2 as <- <-. apply lit_inv in E as [-> ->]. auto.
      - apply lit_inv in E2 as [-> ->]. auto. }
    destruct Hd as [Hd ->]. clear E2.
    destruct (lit " " r2) as [[t3 r3]|] eqn:E3; [|discriminate].
    apply lit_inv in E3 as [_ ->].
    destruct (alt (lit "tcp") (lit "udp") r3) as [[pr r4]|] eqn:E4;
      [|discriminate].
    assert (Hp : (pr = "tcp" \/ pr = "udp") /\ r3 = (pr ++ r4)%string).
    { unfold alt in E4. destruct (lit "tcp" r3) as [[? ?]|] eqn:E.
      - injection E4 as <- <-. apply lit_inv in E as [-> ->]. auto.
      - apply lit_inv in E4 as [-> ->]. auto. }
    destruct Hp as [Hp ->]. clear E4.
    destruct (lit " tag " r4) as [[t5 r5]|] eqn:E5; [|discriminate].
    apply lit_inv in E5 as [_ ->].
    destruct (many1 is_digit r5) as [[tg r6]|] eqn:E6; [|discriminate].
    apply many1_inv in E6 as (-> & Htag & _).
    destruct (lit " len " r6) as [[t7 r7]|] eqn:E7; [|discriminate].
    apply lit_inv in E7 as [_ ->].
    destruct (many1 is_digit r7) as [[ln' r8]|] eqn:E8; [|discriminate].
    apply many1_inv in E8 as (-> & Hlen & Hrest).
    intros [= <-]. cbn [g_ts g_direction g_proto g_tag g_length] in *.
    split; [repeat split; assumption|].
    exists r8. split; [reflexivity|exact Hrest].
  - intros [(Hts & Hd & Hp & Htag & Hlen) (rest & -> & Hrest)].
    destruct g as [ts d pr tg ln'].
    cbn [g_ts g_direction g_proto g_tag g_length] in *.
    unfold event_re_match.
    rewrite (timestamp_pat_stable _ _ _ _ Hts). cbv beta iota.
    rewrite (lit_complete " "). cbv beta iota.
    rewrite (direction_complete _ _ Hd). cbv beta iota.
    rewrite (lit_complete " "). cbv beta iota.
    rewrite (proto_complete _ _ Hp). cbv beta iota.
    rewrite (lit_complete " tag "). cbv beta iota.
    rewrite (many1_complete tg) by (try exact Htag; reflexivity).
    cbv beta iota.
    rewrite (lit_complete " len "). cbv beta iota.
    rewrite (many1_complete ln' rest Hlen Hrest). reflexivity.
Qed.

(** [X17] What [event_re] accepts among the lines of ASCII text: such a
    line is matched, with given groups, exactly when the groups are well
    formed and the line starts with them, laid out as [<timestamp>
    <direction> <protocol> tag <tag> len <length>], the length not being
    followed by a further digit.  What stands behind the length is
    free. *)
Theorem header_format l g :
  is_ascii_text l = true ->
  (event_re_match l = Some g <->
   well_formed_groups g /\
   exists rest,
     l = (g_ts g ++ " " ++ g_direction g ++ " " ++ g_proto g ++
          " tag " ++ g_tag g ++ " len " ++ g_length g ++ rest)%string /\
     starts_without_digit rest).
Proof. intros _. apply event_re_match_format. Qed.

(** * Further concrete runs *)

(** The run over [logs_globbed]. *)
Lemma logs_run : main logs_fs logs_globbed = (logs_read, Dumped logs_output).
Proof. vm_compute. reflexivity. Defined.

(** The logs of [logs_globbed] are ASCII text. *)
Lemma logs_ascii_inputs : ascii_inputs logs_fs logs_globbed.
Proof.
  intros p lines l [<-|[<-|[]]] E Hl; vm_compute in E;
    injection E as <-; vm_compute in Hl;
    repeat (destruct Hl as [<-|Hl]; [reflexivity|]); destruct Hl.
Defined.

(** The output of the run over [logs_globbed] holds three records. *)
Lemma output_capped_witness :
  main logs_fs logs_globbed = (logs_read, Dumped logs_output) /\
  List.length logs_output <= 3.
Proof.
  split; [exact logs_run|].
  exact (output_capped logs_fs logs_globbed logs_read logs_output logs_run).
Defined.

(** The timestamps of that output. *)
Lemma output_timestamps_witness :
  map timestamp logs_output =
  firstn cap (flat_map (file_timestamps logs_fs) (sorted logs_globbed)).
Proof.
  exact (output_timestamps logs_fs logs_globbed logs_read logs_output
           logs_run).
Defined.

(** The example holds one qualifying event; its file is scanned to the
    end. *)
Lemma few_events_all_reported_witness :
  snd (main example_fs ["go_client/debug-1.log"]) =
    Dumped (flat_map (file_events example_fs)
              (sorted ["go_client/debug-1.log"])) /\
  fst (main example_fs ["go_client/debug-1.log"]) =
    map (fun p => (p, file_length example_fs p))
        (sorted ["go_client/debug-1.log"]).
Proof.
  assert (Hread : forall p, In p ["go_client/debug-1.log"] ->
                            example_fs p <> None)
    by (intros p [<-|[]]; discriminate).
  assert (Hfew : List.length
                   (flat_map (file_events example_fs)
                      (sorted ["go_client/debug-1.log"])) <= cap)
    by (vm_compute; lia).
  destruct (few_events_all_reported example_fs ["go_client/debug-1.log"]
              Hread Hfew) as [H1 H2].
  split; [exact H1|]. apply H2. vm_compute. lia.
Defined.

(** The two orders of the two paths. *)
Lemma listing_order_irrelevant_witness :
  main logs_fs ["go_client/debug-2.log"; "go_client/debug-1.log"] =
  main logs_fs ["go_client/debug-1.log"; "go_client/debug-2.log"].
Proof.
  apply (listing_order_irrelevant logs_fs). apply perm_swap.
Defined.

(** Five digits give two bytes. *)
Lemma hex_text_byte_count_witness :
  List.length (line_bytes "0a1b2") = String.length "0a1b2" / 2.
Proof. apply (hex_text_byte_count "0a1b2"). reflexivity. Defined.

(** Three bytes, written with a blank between the pairs. *)
Lemma hex_round_trip_witness :
  String.concat " " (map hex2 [0; 171; 255]%Z) = "00 ab ff" /\
  line_bytes (String.concat " " (map hex2 [0; 171; 255]%Z)) =
    [0; 171; 255]%Z.
Proof.
  split; [reflexivity|].
  apply (hex_round_trip " " [0; 171; 255]%Z); [|reflexivity].
  repeat constructor; unfold is_byte; lia.
Defined.

(** The qualifying header of the example, with a line in front of it. *)
Lemma record_of_header_witness :
  exists j,
    body ([ln "2025/07/14 09:15:01 send tcp tag 1 len 4"] ++
          ln header_2 ::
          [ln "2025/07/14 09:15:02 recv 2 bytes"; ln "00000000  ab cd"])
         (List.length [ln "2025/07/14 09:15:01 send tcp tag 1 len 4"])
         (ln header_2) [] =
    Some (j, [] ++
             [mk_record (g_ts groups_2)
                (b64encode
                   (flat_map line_bytes
                      (dump_behind
                         [ln "2025/07/14 09:15:02 recv 2 bytes";
                          ln "00000000  ab cd"])))]).
Proof.
  apply (record_of_header [ln "2025/07/14 09:15:01 send tcp tag 1 len 4"]
           (ln header_2)
           [ln "2025/07/14 09:15:02 recv 2 bytes"; ln "00000000  ab cd"]
           groups_2 []); reflexivity.
Defined.

(** The second record of the run over [logs_globbed]. *)
Lemma output_timestamp_shape_witness :
  timestamp_pat "2025/07/14 09:16:01" =
    Some ("2025/07/14 09:16:01", EmptyString) /\
  String.length "2025/07/14 09:16:01" = 19.
Proof.
  apply (output_timestamp_shape logs_fs logs_globbed logs_read logs_output
           (mk_record "2025/07/14 09:16:01" "AAAAEAEC") logs_run).
  right. left. reflexivity.
Defined.

Lemma output_data_shape_witness :
  exists bytes,
    Forall is_byte bytes /\
    "AAAAEAEC" = b64encode bytes /\
    String.length "AAAAEAEC" = 4 * ((List.length bytes + 2) / 3) /\
    string_forallb is_b64_char "AAAAEAEC" = true.
Proof.
  apply (output_data_shape logs_fs logs_globbed logs_read logs_output
           (mk_record "2025/07/14 09:16:01" "AAAAEAEC") logs_run).
  right. left. reflexivity.
Defined.

Lemma output_written_verbatim_witness :
  json_record (mk_record "2025/07/14 09:16:01" "AAAAEAEC") =
  ("{" ++ newline ++
   "    " ++ quoted "timestamp" ++ ": " ++ quoted "2025/07/14 09:16:01" ++
   "," ++ newline ++
   "    " ++ quoted "data" ++ ": " ++ quoted "AAAAEAEC" ++
   newline ++ "  }")%string.
Proof.
  apply (output_written_verbatim logs_fs logs_globbed logs_read logs_output
           (mk_record "2025/07/14 09:16:01" "AAAAEAEC")
           logs_ascii_inputs logs_run).
  right. left. reflexivity.
Defined.

(** The loop over the first log, then over the second. *)
Lemma later_files_keep_records_witness :
  for_files logs_fs (["go_client/debug-1.log"] ++ ["go_client/debug-2.log"])
    [] [] =
  for_files logs_fs ["go_client/debug-2.log"]
    [mk_record "2025/07/14 09:15:02" "AAAAAKvN"]
    [("go_client/debug-1.log", 4)].
Proof.
  apply (later_files_keep_records logs_fs
           ["go_client/debug-1.log"] ["go_client/debug-2.log"] [] []
           [("go_client/debug-1.log", 4)]
           [mk_record "2025/07/14 09:15:02" "AAAAAKvN"]).
  vm_compute. reflexivity.
Defined.

(** * The end of the line *)

Lemma chars_eol_blind n cls :
  cls "010"%char = false -> eol_blind (chars n cls).
Proof.
  intros Hnl. induction n as [|n IH]; intros s; [reflexivity|].
  destruct s as [|b s].
  - cbn. now rewrite Hnl.
  - change (ln (String b s)) with (String b (ln s)).
    cbn [chars]. destruct (cls b); [|reflexivity].
    rewrite IH. destruct (chars n cls s) as [[t r]|]; reflexivity.
Qed.

Lemma lit_eol_blind p : no_newline p = true -> eol_blind (lit p).
Proof.
  unfold no_newline. induction p as [|a p IH]; intros Hp s; [reflexivity|].
  cbn [string_forallb] in Hp. apply andb_true_iff in Hp as [Ha Hp].
  apply negb_true_iff in Ha.
  destruct s as [|b s].
  - cbn [ln String.append lit]. now rewrite Ha.
  - change (ln (String b s)) with (String b (ln s)).
    cbn [lit]. destruct (Ascii.eqb a b); [|reflexivity].
    rewrite (IH Hp). destruct (lit p s) as [[t r]|]; reflexivity.
Qed.

Lemma many_eol_blind cls s :
  cls "010"%char = false ->
  many cls (ln s) = (fst (many cls s), ln (snd (many cls s))).
Proof.
  intros Hnl. induction s as [|b s IH].
  - cbn. now rewrite Hnl.
  - change (ln (String b s)) with (String b (ln s)).
    cbn [many]. destruct (cls b); [|reflexivity].
    rewrite IH. destruct (many cls s) as [t r]. reflexivity.
Qed.

Lemma many1_eol_blind cls : cls "010"%char = false -> eol_blind (many1 cls).
Proof.
  intros Hnl s. unfold many1. rewrite (many_eol_blind cls s Hnl).
  destruct (many cls s) as [[|c t] r]; reflexivity.
Qed.

Lemma alt_eol_blind p q : eol_blind p -> eol_blind q -> eol_blind (alt p q).
Proof.
  intros Hp Hq s. unfold alt. rewrite Hp, Hq.
  destruct (p s) as [[t r]|]; reflexivity.
Qed.

Lemma seq_eol_blind p q : eol_blind p -> eol_blind q -> eol_blind (seq p q).
Proof.
  intros Hp Hq s. unfold seq. rewrite Hp.
  destruct (p s) as [[t1 r1]|]; [|reflexivity].
  rewrite Hq. destruct (q r1) as [[t2 r2]|]; reflexivity.
Qed.

Lemma timestamp_pat_eol_blind : eol_blind timestamp_pat.
Proof.
  unfold timestamp_pat.
  repeat first
    [ apply seq_eol_blind
    | apply chars_eol_blind; reflexivity
    | apply lit_eol_blind; reflexivity ].
Qed.

Lemma byte_re_findall_eol s : byte_re_findall (ln s) = byte_re_findall s.
Proof.
  enough (H : byte_re_findall (ln s) = byte_re_findall s /\
              forall a, byte_re_findall (ln (String a s)) =
                        byte_re_findall (String a s))
    by apply H.
  induction s as [|b s [IH1 IH2]].
  - split; [reflexivity|]. intros a. cbn.
    now rewrite andb_false_r.
  - split; [apply IH2|]. intros a.
    change (byte_re_findall (ln (String a (String b s)))) with
      (if is_hex a && is_hex b
       then String a (String b EmptyString) :: byte_re_findall (ln s)
       else byte_re_findall (ln (String b s))).
    change (byte_re_findall (String a (String b s))) with
      (if is_hex a && is_hex b
       then String a (String b EmptyString) :: byte_re_findall s
       else byte_re_findall (String b s)).
    now rewrite IH1, IH2.
Qed.

(** [X18] The newline that [readlines] leaves at the end of a line does
    not count: with it or without it (as in a last line that is not
    terminated) the three patterns match the same lines, [event_re] gives
    the same groups, and the line gives the same bytes. *)
Theorem line_end_irrelevant s :
  event_re_match (ln s) = event_re_match s /\
  size_re_match (ln s) = size_re_match s /\
  hex_re_match (ln s) = hex_re_match s /\
  line_bytes (ln s) = line_bytes s.
Proof.
  pose proof (lit_eol_blind " " eq_refl) as Hsp.
  pose proof (alt_eol_blind _ _ (lit_eol_blind "send" eq_refl)
                (lit_eol_blind "recv" eq_refl)) as Hdir.
  pose proof (alt_eol_blind _ _ (lit_eol_blind "tcp" eq_refl)
                (lit_eol_blind "udp" eq_refl)) as Hproto.
  pose proof (many1_eol_blind is_digit eq_refl) as Hnum.
  repeat split.
  - unfold event_re_match. rewrite timestamp_pat_eol_blind.
    destruct (timestamp_pat s) as [[ts r]|]; [|reflexivity].
    rewrite Hsp. destruct (lit " " r) as [[? r1]|]; [|reflexivity].
    rewrite Hdir.
    destruct (alt (lit "send") (lit "recv") r1) as [[d r2]|]; [|reflexivity].
    rewrite Hsp. destruct (lit " " r2) as [[? r3]|]; [|reflexivity].
    rewrite Hproto.
    destruct (alt (lit "tcp") (lit "udp") r3) as [[pr r4]|]; [|reflexivity].
    rewrite (lit_eol_blind " tag " eq_refl).
    destruct (lit " tag " r4) as [[? r5]|]; [|reflexivity].
    rewrite Hnum. destruct (many1 is_digit r5) as [[tg r6]|]; [|reflexivity].
    rewrite (lit_eol_blind " len " eq_refl).
    destruct (lit " len " r6) as [[? r7]|]; [|reflexivity].
    rewrite Hnum. destruct (many1 is_digit r7) as [[? ?]|]; reflexivity.
  - unfold size_re_match. rewrite timestamp_pat_eol_blind.
    destruct (timestamp_pat s) as [[ts r]|]; [|reflexivity].
    rewrite Hsp. destruct (lit " " r) as [[? r1]|]; [|reflexivity].
    rewrite Hdir.
    destruct (alt (lit "send") (lit "recv") r1) as [[d r2]|]; [|reflexivity].
    rewrite Hsp. destruct (lit " " r2) as [[? r3]|]; [|reflexivity].
    rewrite Hnum. destruct (many1 is_digit r3) as [[n r4]|]; [|reflexivity].
    rewrite (lit_eol_blind " bytes" eq_refl).
    destruct (lit " bytes" r4) as [[? ?]|]; reflexivity.
  - unfold hex_re_match. rewrite (chars_eol_blind 8 is_hex eq_refl).
    destruct (chars 8 is_hex s) as [[? ?]|]; reflexivity.
  - unfold line_bytes. now rewrite byte_re_findall_eol.
Qed.

(** * The format of a size line *)

(** What the matcher of [size_re] accepts. *)
Lemma size_re_match_format l :
  size_re_match l = true <->
  exists ts d n rest,
    timestamp_pat ts = Some (ts, EmptyString) /\
    (d = "send" \/ d = "recv") /\
    is_number n = true /\
    l = (ts ++ " " ++ d ++ " " ++ n ++ " bytes" ++ rest)%string.
Proof.
  unfold size_re_match. split.
  - destruct (timestamp_pat l) as [[ts r]|] eqn:E0; [|discriminate].
    pose proof (timestamp_pat_stable _ _ _ EmptyString E0) as Hts.
    rewrite string_app_nil_r in Hts.
    apply timestamp_pat_sound in E0 as ->.
    destruct (lit " " r) as [[t1 r1]|] eqn:E1; [|discriminate].
    apply lit_inv in E1 as [_ ->].
    destruct (alt (lit "send") (lit "recv") r1) as [[d r2]|] eqn:E2;
      [|discriminate].
    assert (Hd : (d = "send" \/ d = "recv") /\ r1 = (d ++ r2)%string).
    { unfold alt in E2. destruct (lit "send" r1) as [[? ?]|] eqn:E.
      - injection E2 as <- <-. apply lit_inv in E as [-> ->]. auto.
      - apply lit_inv in E2 as [-> ->]. auto. }
    destruct Hd as [Hd ->]. clear E2.
    destruct (lit " " r2) as [[t3 r3]|] eqn:E3; [|discriminate].
    apply lit_inv in E3 as [_ ->].
    destruct (many1 is_digit r3) as [[n r4]|] eqn:E4; [|discriminate].
    apply many1_inv in E4 as (-> & Hn & _).
    destruct (lit " bytes" r4) as [[t5 r5]|] eqn:E5; [|discriminate].
    apply lit_inv in E5 as [_ ->]. intros _.
    exists ts, d, n, r5. auto.
  - intros (ts & d & n & rest & Hts & Hd & Hn & ->).
    rewrite (timestamp_pat_stable _ _ _ _ Hts). cbv beta iota.
    rewrite (lit_complete " "). cbv beta iota.
    rewrite (direction_complete _ _ Hd). cbv beta iota.
    rewrite (lit_complete " "). cbv beta iota.
    rewrite (many1_complete n) by (try exact Hn; reflexivity).
    cbv beta iota.
    rewrite (lit_complete " bytes"). reflexivity.
Qed.

(** [X19] What [size_re] accepts among the lines of ASCII text: the
    lines that start with a timestamp, a blank, one of the two
    directions, a blank, a number and the text [ bytes]; what stands
    behind is free. *)
Theorem size_line_format l :
  is_ascii_text l = true ->
  (size_re_match l = true <->
   exists ts d n rest,
     timestamp_pat ts = Some (ts, EmptyString) /\
     (d = "send" \/ d = "recv") /\
     is_number n = true /\
     l = (ts ++ " " ++ d ++ " " ++ n ++ " bytes" ++ rest)%string).
Proof. intros _. apply size_re_match_format. Qed.

(** The size line of the example. *)
Lemma size_line_format_witness :
  is_ascii_text (ln "2025/07/14 09:15:02 recv 2 bytes") = true /\
  (size_re_match (ln "2025/07/14 09:15:02 recv 2 bytes") = true <->
   exists ts d n rest,
     timestamp_pat ts = Some (ts, EmptyString) /\
     (d = "send" \/ d = "recv") /\
     is_number n = true /\
     ln "2025/07/14 09:15:02 recv 2 bytes" =
       (ts ++ " " ++ d ++ " " ++ n ++ " bytes" ++ rest)%string).
Proof.
  split; [reflexivity|].
  apply (size_line_format (ln "2025/07/14 09:15:02 recv 2 bytes")).
  reflexivity.
Defined.

(** The qualifying header of the example. *)
Lemma header_format_witness :
  is_ascii_text (ln header_2) = true /\
  (event_re_match (ln header_2) = Some groups_2 <->
   well_formed_groups groups_2 /\
   exists rest,
     ln header_2 =
       (g_ts groups_2 ++ " " ++ g_direction groups_2 ++ " " ++
        g_proto groups_2 ++ " tag " ++ g_tag groups_2 ++ " len " ++
        g_length groups_2 ++ rest)%string /\
     starts_without_digit rest).
Proof.
  split; [reflexivity|].
  apply (header_format (ln header_2) groups_2). reflexivity.
Defined.


(** * The data determines the bytes *)

Lemma in_all_bytes v : is_byte v -> In v all_bytes.
Proof.
  intros Hv. unfold all_bytes, is_byte in *.
  rewrite <- (Z2Nat.id v) by lia. apply in_map, in_seq. lia.
Qed.

Lemma b64_back_spec v : b64_back v = true -> b64_value (enc v) = Some v.
Proof.
  unfold b64_back. destruct (b64_value (enc v)) as [w|]; [|discriminate].
  intros H. apply Z.eqb_eq in H. now subst.
Qed.

Lemma one_byte_checked :
  forallb
    (fun a =>
       b64_back (Z.shiftr a 2) &&
       b64_back (Z.land a 63) &&
       b64_back (Z.shiftl (Z.land a 3) 4) &&
       b64_back (Z.shiftl (Z.land a 15) 2) &&
       (Z.lor (Z.shiftl (Z.shiftr a 2) 2)
              (Z.shiftr (Z.shiftl (Z.land a 3) 4) 4) =? a)%Z &&
       (Z.shiftr (Z.shiftl (Z.land a 15) 2) 2 =? Z.land a 15)%Z &&
       (Z.lor (Z.shiftl (Z.shiftr a 4) 4) (Z.land a 15) =? a)%Z &&
       (Z.lor (Z.shiftl (Z.shiftr a 6) 6) (Z.land a 63) =? a)%Z)
    all_bytes = true.
Proof. vm_compute. reflexivity. Qed.

Lemma two_bytes_checked :
  forallb
    (fun a =>
       forallb
         (fun b =>
            let s2 := Z.lor (Z.shiftl (Z.land a 3) 4) (Z.shiftr b 4) in
            let s3 := Z.lor (Z.shiftl (Z.land a 15) 2) (Z.shiftr b 6) in
            b64_back s2 && b64_back s3 &&
            (Z.lor (Z.shiftl (Z.shiftr a 2) 2) (Z.shiftr s2 4) =? a)%Z &&
            (Z.land s2 15 =? Z.shiftr b 4)%Z &&
            (Z.shiftr s3 2 =? Z.land a 15)%Z &&
            (Z.land s3 3 =? Z.shiftr b 6)%Z)
         all_bytes)
    all_bytes = true.
Proof. vm_compute. reflexivity. Qed.

Lemma one_byte a :
  is_byte a ->
  b64_value (enc (Z.shiftr a 2)) = Some (Z.shiftr a 2) /\
  b64_value (enc (Z.land a 63)) = Some (Z.land a 63) /\
  b64_value (enc (Z.shiftl (Z.land a 3) 4)) = Some (Z.shiftl (Z.land a 3) 4) /\
  b64_value (enc (Z.shiftl (Z.land a 15) 2)) =
    Some (Z.shiftl (Z.land a 15) 2) /\
  Z.lor (Z.shiftl (Z.shiftr a 2) 2)
        (Z.shiftr (Z.shiftl (Z.land a 3) 4) 4) = a /\
  Z.shiftr (Z.shiftl (Z.land a 15) 2) 2 = Z.land a 15 /\
  Z.lor (Z.shiftl (Z.shiftr a 4) 4) (Z.land a 15) = a /\
  Z.lor (Z.shiftl (Z.shiftr a 6) 6) (Z.land a 63) = a.
Proof.
  intros Ha.
  pose proof (proj1 (forallb_forall _ _) one_byte_checked a
                (in_all_bytes a Ha)) as H.
  cbv beta in H.
  repeat (apply andb_true_iff in H as [H ?]).
  repeat match goal with
         | E : (_ =? _)%Z = true |- _ => apply Z.eqb_eq in E
         | E : b64_back _ = true |- _ => apply b64_back_spec in E
         end.
  auto 10.
Qed.

Lemma two_bytes a b :
  is_byte a -> is_byte b ->
  let s2 := Z.lor (Z.shiftl (Z.land a 3) 4) (Z.shiftr b 4) in
  let s3 := Z.lor (Z.shiftl (Z.land a 15) 2) (Z.shiftr b 6) in
  b64_value (enc s2) = Some s2 /\
  b64_value (enc s3) = Some s3 /\
  Z.lor (Z.shiftl (Z.shiftr a 2) 2) (Z.shiftr s2 4) = a /\
  Z.land s2 15 = Z.shiftr b 4 /\
  Z.shiftr s3 2 = Z.land a 15 /\
  Z.land s3 3 = Z.shiftr b 6.
Proof.
  intros Ha Hb s2 s3.
  pose proof (proj1 (forallb_forall _ _) two_bytes_checked a
                (in_all_bytes a Ha)) as H.
  cbv beta in H.
  pose proof (proj1 (forallb_forall _ _) H b (in_all_bytes b Hb)) as H'.
  cbv beta zeta in H'. fold s2 s3 in H'.
  repeat (apply andb_true_iff in H' as [H' ?]).
  repeat match goal with
         | E : (_ =? _)%Z = true |- _ => apply Z.eqb_eq in E
         | E : b64_back _ = true |- _ => apply b64_back_spec in E
         end.
  auto 10.
Qed.

(** The reader gives back the bytes that [b64encode] wrote. *)
Lemma b64decode_b64encode bs :
  Forall is_byte bs -> b64decode (b64encode bs) = Some bs.
Proof.
  induction bs as [|a|a b|a b c l IH] using list_ind3; intros Hbs.
  - reflexivity.
  - inversion Hbs as [|? ? Ha _]; subst.
    destruct (one_byte a Ha) as (E1 & _ & E3 & _ & E5 & _).
    cbn [b64encode b64decode]. rewrite E1, E3.
    change (b64_value "="%char) with (@None Z).
    now rewrite E5.
  - inversion Hbs as [|? ? Ha Hbs']; subst.
    inversion Hbs' as [|? ? Hb _]; subst.
    destruct (one_byte a Ha) as (E1 & _).
    destruct (one_byte b Hb) as (_ & _ & _ & F4 & _ & F6 & F7 & _).
    destruct (two_bytes a b Ha Hb) as (G1 & _ & G3 & G4 & _).
    cbn [b64encode b64decode]. rewrite E1, G1, F4.
    change (b64_value "="%char) with (@None Z).
    now rewrite G3, G4, F6, F7.
  - inversion Hbs as [|? ? Ha Hbs']; subst.
    inversion Hbs' as [|? ? Hb Hbs'']; subst.
    inversion Hbs'' as [|? ? Hc Hl]; subst.
    destruct (one_byte a Ha) as (E1 & _).
    destruct (one_byte b Hb) as (_ & _ & _ & _ & _ & _ & F7 & _).
    destruct (one_byte c Hc) as (_ & H2 & _ & _ & _ & _ & _ & H8).
    destruct (two_bytes a b Ha Hb) as (G1 & _ & G3 & G4 & _).
    destruct (two_bytes b c Hb Hc) as (_ & K2 & _ & _ & K5 & K6).
    cbn [b64encode b64decode].
    rewrite E1, G1, K2, H2, (IH Hl), G3, G4, K5, K6, F7, H8.
    reflexivity.
Qed.

(** [X20] The data of a record determines its bytes: two lists of bytes
    with the same base64 text are the same list. *)
Theorem b64encode_injective bs1 bs2 :
  Forall is_byte bs1 -> Forall is_byte bs2 ->
  b64encode bs1 = b64encode bs2 -> bs1 = bs2.
Proof.
  intros H1 H2 E.
  pose proof (b64decode_b64encode bs1 H1) as D1.
  pose proof (b64decode_b64encode bs2 H2) as D2.
  rewrite E in D1. congruence.
Qed.

(** Two bytes and their text. *)
Lemma b64encode_injective_witness :
  b64encode [171; 205]%Z = "q80=" /\ [171; 205]%Z = [171; 205]%Z.
Proof.
  split; [reflexivity|].
  apply (b64encode_injective [171; 205]%Z [171; 205]%Z);
    [repeat constructor; unfold is_byte; lia
    |repeat constructor; unfold is_byte; lia
    |reflexivity].
Defined.
